(** * deduplicate: a shallow embedding of package [cmd], worker-pool variant

    The program hashes every eligible media file of a set of source folders,
    keeps the first path seen for every digest and then materialises the
    survivors in a destination folder (hard link, else byte copy), optionally
    prefixing their names with a timestamp and optionally removing the
    sources.

    The workers run the jobs of a phase concurrently. A hashing job touches
    the shared index under a mutex only, after a read that changes nothing,
    so the phase is the sequence of the jobs in the order in which they take
    the mutex; the statements about it hold for every such order. The
    statements about the second phase are about one job, or about jobs that
    take effect one after the other in some order.

    Layout of the development:
    - models of the Go library functions the program calls ([strings],
      [path/filepath], [time], [crypto/sha512], [os], [io], [io/ioutil]);
    - the program itself ([processFileHash], [populateHash], [getFileTime],
      [copyFileContents], [copyFile], the jobs and the workers of
      [processHashes]);
    - the properties. *)

From Stdlib Require Import ZArith NArith Ascii String DecimalString.
From Stdlib.Strings Require Import Byte.
From stdpp Require Import gmap strings list fin_maps.

Local Open Scope Z_scope.
Local Open Scope string_scope.

(* ===================================================================== *)
(** * Go strings

    A Go string is a sequence of bytes; [string] (a list of 8-bit
    characters) is used for it, and [len] is [String.length]. *)
(* ===================================================================== *)

Module GoStrings.

Definition len (s : string) : nat := String.length s.

(** [s[:n]] for [n <= len s]. *)
Definition slice_to (n : nat) (s : string) : string := substring 0 n s.

(** [s[n:]] for [n <= len s]. *)
Fixpoint slice_from (n : nat) (s : string) : string :=
  match n, s with
  | O, _ => s
  | S n', String _ s' => slice_from n' s'
  | S _, EmptyString => EmptyString
  end.

Fixpoint HasPrefix (s p : string) {struct p} : bool :=
  match p, s with
  | EmptyString, _ => true
  | String c p', String d s' => if Ascii.eqb c d then HasPrefix s' p' else false
  | String _ _, EmptyString => false
  end.

(** [strings.ReplaceAll s old new] for a non-empty [old]: the occurrences
    of [old] are replaced from left to right, without overlap. [skip] is
    the number of bytes of a matched occurrence still to be dropped. (For
    an empty [old] Go inserts [new] around every rune; the program never
    does that, and this model then returns [s] unchanged.) *)
Fixpoint replace_from (skip : nat) (s old new : string) : string :=
  match s with
  | EmptyString => EmptyString
  | String c s' =>
      match skip with
      | S k => replace_from k s' old new
      | O =>
          match old with
          | EmptyString => String c (replace_from O s' old new)
          | String _ _ =>
              if HasPrefix s old
              then new ++ replace_from (len old - 1) s' old new
              else String c (replace_from O s' old new)
          end
      end
  end.

Definition ReplaceAll (s old new : string) : string := replace_from 0 s old new.

(** [strings.ToLower] on the ASCII letters; other bytes are kept (Go also
    maps non-ASCII upper-case runes, which no allowed extension has). *)
Definition lower_ascii (c : ascii) : ascii :=
  let n := nat_of_ascii c in
  if (Nat.leb 65 n && Nat.leb n 90)%bool then ascii_of_nat (n + 32) else c.

Fixpoint ToLower (s : string) : string :=
  match s with
  | EmptyString => EmptyString
  | String c s' => String (lower_ascii c) (ToLower s')
  end.

(** [fmt.Sprintf("%s %s", a, b)]. *)
Definition Sprintf_s_s (a b : string) : string := a ++ " " ++ b.

End GoStrings.

(* ===================================================================== *)
(** * path/filepath on Unix (separator [/], no volume names) *)
(* ===================================================================== *)

Module filepath.
Import GoStrings.

Definition Separator : ascii := "/"%char.
Definition IsPathSeparator (c : ascii) : bool := Ascii.eqb c Separator.

(** The elements of a path: the maximal runs between separators, empty
    ones included ([split "/a//b" = [""; "a"; ""; "b"]]). *)
Fixpoint split (s : string) : list string :=
  match s with
  | EmptyString => [EmptyString]
  | String c s' =>
      if IsPathSeparator c then EmptyString :: split s'
      else match split s' with
           | e :: es => String c e :: es
           | [] => [String c EmptyString]
           end
  end.

Fixpoint join_sep (es : list string) : string :=
  match es with
  | [] => EmptyString
  | [e] => e
  | e :: es' => e ++ "/" ++ join_sep es'
  end.

(** One step of the loop of [Clean] on the element [e]; [out] holds the
    elements written so far, last one first. A [..] removes the last
    element written unless that is itself a [..] (or nothing is written),
    in which case it is kept for a relative path and dropped for a rooted
    one. *)
Definition clean_step (rooted : bool) (out : list string) (e : string) : list string :=
  if String.eqb e "" then out
  else if String.eqb e "." then out
  else if String.eqb e ".." then
    match out with
    | top :: rest => if String.eqb top ".." then e :: out else rest
    | [] => if rooted then out else [e]
    end
  else e :: out.

Definition Clean (path : string) : string :=
  match path with
  | EmptyString => "."
  | String c _ =>
      let rooted := IsPathSeparator c in
      let out := fold_left (clean_step rooted) (split path) [] in
      let body := join_sep (rev out) in
      if rooted then String Separator body
      else if String.eqb body "" then "." else body
  end.

(** [filepath.Join(a, b)]: the non-empty elements joined by a separator,
    then cleaned; the empty string when both are empty. *)
Definition Join (a b : string) : string :=
  if String.eqb a "" then (if String.eqb b "" then "" else Clean b)
  else Clean (a ++ "/" ++ b).

(** Trailing separators removed. *)
Fixpoint strip_trailing (s : string) : string :=
  match s with
  | EmptyString => EmptyString
  | String c s' =>
      match strip_trailing s' with
      | EmptyString => if IsPathSeparator c then EmptyString else String c EmptyString
      | r => String c r
      end
  end.

Definition last_element (s : string) : string := List.last (split s) EmptyString.

(** [filepath.Base]: the last element of the path, trailing separators
    removed first; [.] for the empty path and [/] for a path of
    separators only. *)
Definition Base (path : string) : string :=
  match path with
  | EmptyString => "."
  | _ =>
      match last_element (strip_trailing path) with
      | EmptyString => String Separator EmptyString
      | r => r
      end
  end.

(** The suffix of [s] that starts at its final dot. *)
Fixpoint from_last_dot (s : string) : option string :=
  match s with
  | EmptyString => None
  | String c s' =>
      match from_last_dot s' with
      | Some r => Some r
      | None => if Ascii.eqb c "."%char then Some s else None
      end
  end.

(** [filepath.Ext]: the scan runs from the right end and stops at the
    first separator, so it sees the last element only. *)
Definition Ext (path : string) : string :=
  default "" (from_last_dot (last_element path)).

End filepath.

(* ===================================================================== *)
(** * time: civil time, [Parse] and [Format] for numeric layouts

    A [Time] is the civil date and clock reading that [Format] prints.
    Nanoseconds and the location are left out: [timeFormat] prints
    neither. *)
(* ===================================================================== *)

Module GoTime.
Import GoStrings.

Record Time := mkTime {
  year : Z; month : Z; day : Z; hour : Z; minute : Z; second : Z
}.

(** [time.Time{}], January 1 of year 1, 00:00:00. *)
Definition zero : Time := mkTime 1 1 1 0 0 0.

Definition Time_eqb (a b : Time) : bool :=
  ((year a =? year b) && (month a =? month b) && (day a =? day b) &&
   (hour a =? hour b) && (minute a =? minute b) && (second a =? second b))%Z.

(** The pieces of a layout. Only the verbs of [timeFormat] are
    recognised ([2006], [01], [02], [15], [04], [05]); every other byte
    of a layout is literal text. *)
Inductive chunk :=
| stdLongYear | stdZeroMonth | stdZeroDay | stdHour | stdZeroMinute | stdZeroSecond
| stdLit (c : ascii).

Fixpoint nextStdChunks (skip : nat) (layout : string) : list chunk :=
  match layout with
  | EmptyString => []
  | String c rest =>
      match skip with
      | S k => nextStdChunks k rest
      | O =>
          if HasPrefix layout "2006" then stdLongYear :: nextStdChunks 3 rest
          else if HasPrefix layout "01" then stdZeroMonth :: nextStdChunks 1 rest
          else if HasPrefix layout "02" then stdZeroDay :: nextStdChunks 1 rest
          else if HasPrefix layout "15" then stdHour :: nextStdChunks 1 rest
          else if HasPrefix layout "04" then stdZeroMinute :: nextStdChunks 1 rest
          else if HasPrefix layout "05" then stdZeroSecond :: nextStdChunks 1 rest
          else stdLit c :: nextStdChunks 0 rest
      end
  end.

Definition isDigit (c : ascii) : bool :=
  let n := nat_of_ascii c in (Nat.leb 48 n && Nat.leb n 57)%bool.

Definition digit (c : ascii) : Z := Z.of_nat (nat_of_ascii c) - 48.

(** [getnum]: a number of one or two digits, of exactly two when
    [fixed]. *)
Definition getnum (s : string) (fixed : bool) : option (Z * string) :=
  match s with
  | String a rest =>
      if isDigit a then
        match rest with
        | String b rest' =>
            if isDigit b then Some (digit a * 10 + digit b, rest')
            else if fixed then None else Some (digit a, rest)
        | EmptyString => if fixed then None else Some (digit a, rest)
        end
      else None
  | EmptyString => None
  end.

(** The four digits of a [2006] year. *)
Definition getyear (s : string) : option (Z * string) :=
  match s with
  | String a (String b (String c (String d rest))) =>
      if isDigit a && isDigit b && isDigit c && isDigit d
      then Some (((digit a * 10 + digit b) * 10 + digit c) * 10 + digit d, rest)
      else None
  | _ => None
  end.

Fixpoint skip_digits (s : string) : string :=
  match s with
  | String c rest => if isDigit c then skip_digits rest else s
  | EmptyString => s
  end.

(** After the seconds [Parse] accepts a fraction ([.] or [,] and digits)
    that the layout does not name; it is read and dropped here. *)
Definition skip_fraction (s : string) : string :=
  match s with
  | String p (String d rest) =>
      if (Ascii.eqb p "."%char || Ascii.eqb p ","%char) && isDigit d
      then skip_digits rest else s
  | _ => s
  end.

Definition in_range (lo hi x : Z) : bool := ((lo <=? x) && (x <=? hi))%Z.

Definition parse_chunk (st : Time * string) (c : chunk) : option (Time * string) :=
  let '(t, value) := st in
  match c with
  | stdLit a =>
      match value with
      | String b rest => if Ascii.eqb a b then Some (t, rest) else None
      | EmptyString => None
      end
  | stdLongYear =>
      '(y, rest) ← getyear value;
      Some (mkTime y (month t) (day t) (hour t) (minute t) (second t), rest)
  | stdZeroMonth =>
      '(m, rest) ← getnum value true;
      if in_range 1 12 m
      then Some (mkTime (year t) m (day t) (hour t) (minute t) (second t), rest)
      else None
  | stdZeroDay =>
      '(d, rest) ← getnum value true;
      Some (mkTime (year t) (month t) d (hour t) (minute t) (second t), rest)
  | stdHour =>
      '(h, rest) ← getnum value false;
      if in_range 0 23 h
      then Some (mkTime (year t) (month t) (day t) h (minute t) (second t), rest)
      else None
  | stdZeroMinute =>
      '(m, rest) ← getnum value true;
      if in_range 0 59 m
      then Some (mkTime (year t) (month t) (day t) (hour t) m (second t), rest)
      else None
  | stdZeroSecond =>
      '(s, rest) ← getnum value true;
      if in_range 0 59 s
      then Some (mkTime (year t) (month t) (day t) (hour t) (minute t) s,
                 skip_fraction rest)
      else None
  end.

Fixpoint parse_chunks (cs : list chunk) (st : Time * string) : option (Time * string) :=
  match cs with
  | [] => Some st
  | c :: cs' => st' ← parse_chunk st c; parse_chunks cs' st'
  end.

Definition isLeap (y : Z) : bool :=
  ((y mod 4 =? 0) && (negb (y mod 100 =? 0) || (y mod 400 =? 0)))%Z.

Definition daysIn (m y : Z) : Z :=
  if (m =? 2)%Z then (if isLeap y then 29 else 28)
  else if ((m =? 4) || (m =? 6) || (m =? 9) || (m =? 11))%Z then 30 else 31.

(** [time.Parse layout value]: [None] stands for a non-nil error. The
    fields the layout does not name keep their defaults (year 0,
    January 1, midnight); text left over and a day that the month does
    not have are errors. *)
Definition Parse (layout value : string) : option Time :=
  '(t, rest) ← parse_chunks (nextStdChunks 0 layout) (mkTime 0 1 1 0 0 0, value);
  if String.eqb rest "" && in_range 1 (daysIn (month t) (year t)) (day t)
  then Some t else None.

(** [appendInt]: decimal digits, padded with zeros to [width], after a
    minus sign for a negative number. *)
Definition pad_zeros (width : nat) (digits : string) : string :=
  String.concat "" (replicate (width - len digits) "0") ++ digits.

Definition appendInt (x : Z) (width : nat) : string :=
  let digits := NilZero.string_of_uint (N.to_uint (Z.to_N (Z.abs x))) in
  (if (x <? 0)%Z then "-" else "") ++ pad_zeros width digits.

Definition format_chunk (t : Time) (c : chunk) : string :=
  match c with
  | stdLit a => String a EmptyString
  | stdLongYear => appendInt (year t) 4
  | stdZeroMonth => appendInt (month t) 2
  | stdZeroDay => appendInt (day t) 2
  | stdHour => appendInt (hour t) 2
  | stdZeroMinute => appendInt (minute t) 2
  | stdZeroSecond => appendInt (second t) 2
  end.

(** [t.Format(layout)]. *)
Definition Format (t : Time) (layout : string) : string :=
  String.concat "" (map (format_chunk t) (nextStdChunks 0 layout)).

End GoTime.

(* ===================================================================== *)
(** * crypto/sha512: SHA-512 (FIPS 180-4) on 64-bit words held in [Z] *)
(* ===================================================================== *)

Module sha512.
Local Open Scope Z_scope.

Definition w64 : Z := 2 ^ 64.
Definition add64 (a b : Z) : Z := (a + b) mod w64.
Definition rotr (n x : Z) : Z := Z.lor (Z.shiftr x n) (Z.shiftl x (64 - n) mod w64).
Definition not64 (x : Z) : Z := w64 - 1 - x.

Definition Ch (x y z : Z) : Z := Z.lxor (Z.land x y) (Z.land (not64 x) z).
Definition Maj (x y z : Z) : Z :=
  Z.lxor (Z.lxor (Z.land x y) (Z.land x z)) (Z.land y z).
Definition Sigma0 (x : Z) : Z := Z.lxor (Z.lxor (rotr 28 x) (rotr 34 x)) (rotr 39 x).
Definition Sigma1 (x : Z) : Z := Z.lxor (Z.lxor (rotr 14 x) (rotr 18 x)) (rotr 41 x).
Definition sigma0 (x : Z) : Z := Z.lxor (Z.lxor (rotr 1 x) (rotr 8 x)) (Z.shiftr x 7).
Definition sigma1 (x : Z) : Z := Z.lxor (Z.lxor (rotr 19 x) (rotr 61 x)) (Z.shiftr x 6).

Definition primes80 : list Z :=
  [2; 3; 5; 7; 11; 13; 17; 19; 23; 29; 31; 37; 41; 43; 47; 53; 59; 61; 67; 71;
   73; 79; 83; 89; 97; 101; 103; 107; 109; 113; 127; 131; 137; 139; 149; 151;
   157; 163; 167; 173; 179; 181; 191; 193; 197; 199; 211; 223; 227; 229; 233;
   239; 241; 251; 257; 263; 269; 271; 277; 281; 283; 293; 307; 311; 313; 317;
   331; 337; 347; 349; 353; 359; 367; 373; 379; 383; 389; 397; 401; 409].

(** The largest [r] below [2 ^ bits] with [r ^ 3 <= n], bit by bit. *)
Fixpoint icbrt (bits : nat) (n r : Z) : Z :=
  match bits with
  | O => r
  | S b =>
      let r' := r + 2 ^ Z.of_nat b in
      icbrt b n (if r' * r' * r' <=? n then r' else r)
  end.

(** The round constants: the first 64 bits of the fractional parts of the
    cube roots of the first eighty primes. *)
Definition K : list Z :=
  Eval vm_compute in map (fun p => icbrt 70 (p * 2 ^ 192) 0 mod w64) primes80.

(** The initial hash value: the same for the square roots of the first
    eight primes. *)
Definition H0 : list Z :=
  Eval vm_compute in map (fun p => Z.sqrt (p * 2 ^ 128) mod w64) (take 8 primes80).

(** Big-endian bytes of [x], [n] of them. *)
Fixpoint be_bytes (n : nat) (x : Z) : list Z :=
  match n with
  | O => []
  | S k => (Z.shiftr x (8 * Z.of_nat k)) mod 256 :: be_bytes k x
  end.

Definition be_word (bs : list Z) : Z := fold_left (fun acc b => acc * 256 + b) bs 0.

(** The message followed by the bit [1], zeros up to 112 modulo 128
    bytes, and the length in bits on 128 bits. *)
Definition pad (msg : list Z) : list Z :=
  let l := Z.of_nat (length msg) in
  let k := (111 - l) mod 128 in
  msg ++ [128] ++ replicate (Z.to_nat k) 0 ++ be_bytes 16 (8 * l).

(** [l] cut in pieces of [n] elements; [fuel] bounds their number. *)
Fixpoint chunks {A} (fuel n : nat) (l : list A) : list (list A) :=
  match fuel, l with
  | O, _ => []
  | _, [] => []
  | S f, _ => take n l :: chunks f n (drop n l)
  end.

(** The message schedule, last word first: [rw] holds [W t-1 .. W 0]. *)
Fixpoint schedule (n : nat) (rw : list Z) : list Z :=
  match n with
  | O => rw
  | S k =>
      let w i := nth i rw 0 in
      schedule k (add64 (add64 (sigma1 (w 1%nat)) (w 6%nat))
                        (add64 (sigma0 (w 14%nat)) (w 15%nat)) :: rw)
  end.

Record regs := mkRegs { ra : Z; rb : Z; rc : Z; rd : Z; re : Z; rf : Z; rg : Z; rh : Z }.

Definition round (s : regs) (kw : Z * Z) : regs :=
  let T1 := add64 (add64 (add64 (rh s) (Sigma1 (re s))) (Ch (re s) (rf s) (rg s)))
                  (add64 (fst kw) (snd kw)) in
  let T2 := add64 (Sigma0 (ra s)) (Maj (ra s) (rb s) (rc s)) in
  mkRegs (add64 T1 T2) (ra s) (rb s) (rc s) (add64 (rd s) T1) (re s) (rf s) (rg s).

Definition regs_of (h : list Z) : regs :=
  let x i := nth i h 0 in
  mkRegs (x 0%nat) (x 1%nat) (x 2%nat) (x 3%nat) (x 4%nat) (x 5%nat) (x 6%nat) (x 7%nat).

Definition list_of (s : regs) : list Z :=
  [ra s; rb s; rc s; rd s; re s; rf s; rg s; rh s].

Definition compress (h : list Z) (block : list Z) : list Z :=
  let W := rev (schedule 64 (rev (map be_word (chunks 16 8 block)))) in
  let s := fold_left round (zip K W) (regs_of h) in
  zip_with add64 h (list_of s).

Definition byte_to_Z (b : byte) : Z := Z.of_N (Byte.to_N b).
Definition Z_to_byte (z : Z) : byte := default x00 (Byte.of_N (Z.to_N z)).

(** [sha512.Sum512(data)]: the 64 bytes of the digest. *)
Definition Sum512 (data : list byte) : list byte :=
  let p := pad (map byte_to_Z data) in
  let h := fold_left compress (chunks (length p) 128 p) H0 in
  map Z_to_byte (concat (map (be_bytes 8) h)).

Definition hex_digit (n : N) : ascii :=
  ascii_of_N (if (n <? 10)%N then 48 + n else 87 + n)%N.

(** [fmt.Sprintf("%x", hash)]: two lower-case hexadecimal digits a
    byte. *)
Fixpoint Sprintf_x (bs : list byte) : string :=
  match bs with
  | [] => EmptyString
  | b :: bs' =>
      let n := Byte.to_N b in
      String (hex_digit (n / 16)) (String (hex_digit (n mod 16)) (Sprintf_x bs'))
  end.

End sha512.

(* ===================================================================== *)
(** * The operating system: files, directory entries, system calls

    The file system is a table of directory entries (path to inode number)
    and a table of inodes, so that two paths can name one file (hard
    links). Every system call is recorded in a trace, and can be made to
    fail by the environment ([faults]: permissions, I/O errors, links
    across volumes, ...) on top of the failures that follow from the file
    system itself (missing file, existing destination, directory). *)
(* ===================================================================== *)

Module Sys.
Export GoStrings GoTime.

Inductive FileMode := ModeRegular | ModeDir | ModeIrregular.

Definition IsRegular (m : FileMode) : bool :=
  match m with ModeRegular => true | _ => false end.
Definition IsDir (m : FileMode) : bool :=
  match m with ModeDir => true | _ => false end.

Record Inode := mkInode {
  i_mode : FileMode;
  i_data : list byte;
  i_nlink : nat;
  i_mtime : Time;
  i_btime : option Time      (* the birth time, where the file system has one *)
}.

Record FS := mkFS {
  names : gmap string nat;   (* directory entries *)
  inodes : gmap nat Inode
}.

Inductive errno := ENOENT | EEXIST | EACCES | EIO | EXDEV | EISDIR | EPERM | ENOSPC.

Inductive Op :=
| OpStat (p : string)
| OpLink (src dst : string)
| OpOpen (p : string)
| OpCreate (p : string)
| OpCopy (out inp : nat)
| OpSync (ino : nat)
| OpClose (ino : nat)
| OpRemove (p : string)
| OpReadFile (p : string)
| OpReadDir (p : string)
| OpExifDecode (ino : nat)
| OpTimesStat (p : string)
| OpFileStat (ino : nat).

(** The operations that change the file system. *)
Definition mutating (o : Op) : bool :=
  match o with
  | OpLink _ _ | OpCreate _ | OpCopy _ _ | OpRemove _ => true
  | _ => false
  end.

(** Go's [error] values of the program; [option error] is Go's [error]
    with [None] for [nil]. *)
Inductive error :=
| SysError (e : errno) (o : Op)
| ErrNonRegularSource (name : string)
| ErrNonRegularDestination (name : string)
| ErrExifDecode
| ErrTimeNotCalculated (path : string).

Inductive result (A : Type) := Ok (a : A) | Err (e : error).
Arguments Ok {A} a.
Arguments Err {A} e.

#[global] Instance byte_eq_dec : EqDecision byte := Byte.byte_eq_dec.
#[global] Instance errno_eq_dec : EqDecision errno.
Proof. solve_decision. Defined.
#[global] Instance Op_eq_dec : EqDecision Op.
Proof. solve_decision. Defined.
#[global] Instance error_eq_dec : EqDecision error.
Proof. solve_decision. Defined.

Definition IsNotExist (e : error) : bool :=
  match e with SysError ENOENT _ => true | _ => false end.

(** What the program prints, one constructor a [fmt.Print] call site
    (the calls that print an empty line are left out). *)
Inductive LogLine :=
| LogReadDirError (e : error)
| LogReadError (fPath : string) (e : error)
| LogDuplicate (currentCollisions : Z) (fPath current : string)
| LogTotalImages (n : nat)
| LogTotalDuplicates (n : Z)
| LogPrintln (e : error)
| LogSkipped (sourceFile destinationFile : string)
| LogSimulate (sourceFile destinationFile : string)
| LogCopying (sourceFile destinationFile : string)
| LogMoving (sourceFile destinationFile : string)
| LogCopyError (sourceFile : string) (e : error)
| LogRemoveError (sourceFile : string) (e : error).

(** What a run reads but does not change: the command-line flags, the
    clock, the failures the environment injects and the EXIF decoder
    ([None]: no EXIF data can be decoded; [Some None]: decoded, but
    without a date). *)
Record Env := mkEnv {
  rename : bool;
  move : bool;
  simulate : bool;
  clock : Time;
  faults : Op → option errno;
  exif : list byte → option (option Time)
}.

(** What a run changes: the file system, the trace of system calls, the
    package-level variables [hashes], [collisions], [copyErrors] and
    [removeErrors], and the standard output. *)
Record State := mkState {
  fs : FS;
  trace : list Op;
  hashes : gmap string string;
  collisions : Z;
  copyErrors : Z;
  removeErrors : Z;
  stdout : list LogLine
}.

Definition set_fs (f : FS) (s : State) : State :=
  mkState f (trace s) (hashes s) (collisions s) (copyErrors s) (removeErrors s) (stdout s).
Definition add_trace (o : Op) (s : State) : State :=
  mkState (fs s) (trace s ++ [o]) (hashes s) (collisions s) (copyErrors s)
          (removeErrors s) (stdout s).
Definition set_hashes (h : gmap string string) (s : State) : State :=
  mkState (fs s) (trace s) h (collisions s) (copyErrors s) (removeErrors s) (stdout s).
Definition set_collisions (c : Z) (s : State) : State :=
  mkState (fs s) (trace s) (hashes s) c (copyErrors s) (removeErrors s) (stdout s).
Definition set_copyErrors (c : Z) (s : State) : State :=
  mkState (fs s) (trace s) (hashes s) (collisions s) c (removeErrors s) (stdout s).
Definition set_removeErrors (c : Z) (s : State) : State :=
  mkState (fs s) (trace s) (hashes s) (collisions s) (copyErrors s) c (stdout s).
Definition add_stdout (l : LogLine) (s : State) : State :=
  mkState (fs s) (trace s) (hashes s) (collisions s) (copyErrors s) (removeErrors s)
          (stdout s ++ [l]).

(** ** The monad of the program: a reader of [Env], a state of [State] *)

Definition M (A : Type) : Type := Env → State → A * State.

Definition ret {A} (a : A) : M A := fun _ s => (a, s).
Definition bind {A B} (m : M A) (k : A → M B) : M B :=
  fun env s => let '(a, s') := m env s in k a env s'.

Notation "'let!' x ':=' m 'in' k" := (bind m (fun x => k))
  (at level 10, x pattern, m at level 100, k at level 200).
Notation "m ';;' k" := (bind m (fun _ => k))
  (at level 100, k at level 200, right associativity).

Definition ask : M Env := fun env s => (env, s).
Definition get : M State := fun _ s => (s, s).
Definition modify (f : State → State) : M unit := fun _ s => (tt, f s).

Definition Print (l : LogLine) : M unit := modify (add_stdout l).

(** A system call is entered: it is recorded, and the environment says
    whether it fails. *)
Definition syscall (o : Op) : M (option errno) :=
  fun env s => (faults env o, add_trace o s).

Definition time_Now : M Time := fun env s => (clock env, s).

(** ** File metadata *)

Record FileInfo := mkFileInfo {
  fi_name : string;
  fi_mode : FileMode;
  fi_ino : nat;              (* device and inode: the identity of the file *)
  fi_mtime : Time
}.

Definition SameFile (a b : FileInfo) : bool := Nat.eqb (fi_ino a) (fi_ino b).

(** The inode a path names. *)
Definition resolve (f : FS) (p : string) : option (nat * Inode) :=
  match names f !! p with
  | Some i => match inodes f !! i with Some nd => Some (i, nd) | None => None end
  | None => None
  end.

Definition os_Stat (p : string) : M (result FileInfo) :=
  let! e := syscall (OpStat p) in
  let! s := get in
  match e with
  | Some e => ret (Err (SysError e (OpStat p)))
  | None =>
      match resolve (fs s) p with
      | Some (i, nd) => ret (Ok (mkFileInfo (filepath.Base p) (i_mode nd) i (i_mtime nd)))
      | None => ret (Err (SysError ENOENT (OpStat p)))
      end
  end.

(** ** Reading *)

(** An open file: the inode it was opened on. *)
Record File := mkFile { fd_ino : nat }.

Definition os_Open (p : string) : M (result File) :=
  let! e := syscall (OpOpen p) in
  let! s := get in
  match e with
  | Some e => ret (Err (SysError e (OpOpen p)))
  | None =>
      match resolve (fs s) p with
      | Some (i, _) => ret (Ok (mkFile i))
      | None => ret (Err (SysError ENOENT (OpOpen p)))
      end
  end.

(** [ioutil.ReadFile]: the whole content, or no data and an error (the
    failure is one of opening the file). *)
Definition ioutil_ReadFile (p : string) : M (list byte * option error) :=
  let! e := syscall (OpReadFile p) in
  let! s := get in
  match e with
  | Some e => ret ([], Some (SysError e (OpReadFile p)))
  | None =>
      match resolve (fs s) p with
      | Some (_, nd) =>
          if IsDir (i_mode nd) then ret ([], Some (SysError EISDIR (OpReadFile p)))
          else ret (i_data nd, None)
      | None => ret ([], Some (SysError ENOENT (OpReadFile p)))
      end
  end.

(** An entry of a directory listing: its name and whether it is a
    directory. *)
Record DirEntry := mkDirEntry { de_name : string; de_isdir : bool }.

(** The entries of [dir]: the paths [dir/name] with a single-element
    [name]. *)
Definition entry_of (f : FS) (dir : string) (pi : string * nat) : option DirEntry :=
  let prefix := dir ++ "/" in
  let name := slice_from (len prefix) (fst pi) in
  if HasPrefix (fst pi) prefix && negb (String.eqb name "") &&
     negb (existsb filepath.IsPathSeparator (list_ascii_of_string name))
  then Some (mkDirEntry name
               (match inodes f !! snd pi with Some nd => IsDir (i_mode nd) | None => false end))
  else None.

(** [ioutil.ReadDir]: the entries of a directory (Go sorts them by name;
    the order is not kept here, since the jobs made from them run
    concurrently anyway). *)
Definition ioutil_ReadDir (dir : string) : M (list DirEntry * option error) :=
  let! e := syscall (OpReadDir dir) in
  let! s := get in
  match e with
  | Some e => ret ([], Some (SysError e (OpReadDir dir)))
  | None =>
      match resolve (fs s) dir with
      | Some (_, nd) =>
          if IsDir (i_mode nd)
          then ret (omap (entry_of (fs s) dir) (map_to_list (names (fs s))), None)
          else ret ([], Some (SysError ENOENT (OpReadDir dir)))
      | None => ret ([], Some (SysError ENOENT (OpReadDir dir)))
      end
  end.

(** [exif.Decode(file)] followed by [DateTime()]: the outer result is
    that of the decoding, the inner one that of the date. *)
Definition exif_Decode (file : File) : M (result (result Time)) :=
  let! e := syscall (OpExifDecode (fd_ino file)) in
  let! s := get in
  let! env := ask in
  match e with
  | Some e => ret (Err (SysError e (OpExifDecode (fd_ino file))))
  | None =>
      match inodes (fs s) !! fd_ino file with
      | Some nd =>
          if IsDir (i_mode nd) then ret (Err (SysError EISDIR (OpExifDecode (fd_ino file))))
          else match exif env (i_data nd) with
               | Some (Some t) => ret (Ok (Ok t))
               | Some None => ret (Ok (Err ErrExifDecode))
               | None => ret (Err ErrExifDecode)
               end
      | None => ret (Err (SysError EIO (OpExifDecode (fd_ino file))))
      end
  end.

(** [times.Stat(path)]: the birth time, if any, and the modification
    time. *)
Record Timespec := mkTimespec { ts_btime : option Time; ts_mtime : Time }.

Definition HasBirthTime (t : Timespec) : bool :=
  match ts_btime t with Some _ => true | None => false end.
Definition BirthTime (t : Timespec) : Time := default zero (ts_btime t).
Definition ModTime (t : Timespec) : Time := ts_mtime t.

Definition times_Stat (p : string) : M (result Timespec) :=
  let! e := syscall (OpTimesStat p) in
  let! s := get in
  match e with
  | Some e => ret (Err (SysError e (OpTimesStat p)))
  | None =>
      match resolve (fs s) p with
      | Some (_, nd) => ret (Ok (mkTimespec (i_btime nd) (i_mtime nd)))
      | None => ret (Err (SysError ENOENT (OpTimesStat p)))
      end
  end.

(** [file.Stat()]. *)
Definition File_Stat (file : File) : M (result FileInfo) :=
  let! e := syscall (OpFileStat (fd_ino file)) in
  let! s := get in
  match e with
  | Some e => ret (Err (SysError e (OpFileStat (fd_ino file))))
  | None =>
      match inodes (fs s) !! fd_ino file with
      | Some nd => ret (Ok (mkFileInfo "" (i_mode nd) (fd_ino file) (i_mtime nd)))
      | None => ret (Err (SysError EIO (OpFileStat (fd_ino file))))
      end
  end.

(** ** Writing *)

Definition set_data (d : list byte) (t : Time) (nd : Inode) : Inode :=
  mkInode (i_mode nd) d (i_nlink nd) t (i_btime nd).
Definition set_nlink (n : nat) (nd : Inode) : Inode :=
  mkInode (i_mode nd) (i_data nd) n (i_mtime nd) (i_btime nd).

(** [data] written at the beginning of a file that holds [old]. *)
Definition overwrite (data old : list byte) : list byte :=
  data ++ drop (length data) old.

(** An inode number that is not in use. *)
Definition fresh_ino (f : FS) : nat := fresh (dom (inodes f)).

(** [os.Link(src, dst)]: a second name for the file of [src]. It fails
    when [src] does not exist or is a directory, and when [dst] exists. *)
Definition os_Link (src dst : string) : M (option error) :=
  let! e := syscall (OpLink src dst) in
  let! s := get in
  match e with
  | Some e => ret (Some (SysError e (OpLink src dst)))
  | None =>
      match resolve (fs s) src with
      | None => ret (Some (SysError ENOENT (OpLink src dst)))
      | Some (i, nd) =>
          if IsDir (i_mode nd) then ret (Some (SysError EPERM (OpLink src dst)))
          else match names (fs s) !! dst with
               | Some _ => ret (Some (SysError EEXIST (OpLink src dst)))
               | None =>
                   modify (set_fs (mkFS (<[dst := i]> (names (fs s)))
                                        (<[i := set_nlink (S (i_nlink nd)) nd]> (inodes (fs s))))) ;;
                   ret None
               end
      end
  end.

(** [os.Create(dst)]: an existing file is truncated, a missing one is
    created empty; a directory cannot be created over. *)
Definition os_Create (dst : string) : M (result File) :=
  let! e := syscall (OpCreate dst) in
  let! s := get in
  let! env := ask in
  match e with
  | Some e => ret (Err (SysError e (OpCreate dst)))
  | None =>
      match names (fs s) !! dst with
      | Some i =>
          match inodes (fs s) !! i with
          | Some nd =>
              if IsDir (i_mode nd) then ret (Err (SysError EISDIR (OpCreate dst)))
              else
                modify (set_fs (mkFS (names (fs s))
                                     (<[i := set_data [] (clock env) nd]> (inodes (fs s))))) ;;
                ret (Ok (mkFile i))
          | None => ret (Err (SysError EIO (OpCreate dst)))
          end
      | None =>
          let i := fresh_ino (fs s) in
          modify (set_fs (mkFS (<[dst := i]> (names (fs s)))
                               (<[i := mkInode ModeRegular [] 1 (clock env) (Some (clock env))]>
                                  (inodes (fs s))))) ;;
          ret (Ok (mkFile i))
      end
  end.

(** [io.Copy(out, in)] on two files just opened: what [in] holds is
    written to [out] from its beginning. [os.Create] opens without
    [O_APPEND], so the bytes go to the offsets from 0 on, over what the
    file holds there; what it holds beyond them stays (there is nothing
    when no other writer came in after the truncation). The copy is taken
    as one step, and a failed copy is modelled as writing nothing. *)
Definition io_Copy (out inp : File) : M (option error) :=
  let! e := syscall (OpCopy (fd_ino out) (fd_ino inp)) in
  let! s := get in
  let! env := ask in
  match e with
  | Some e => ret (Some (SysError e (OpCopy (fd_ino out) (fd_ino inp))))
  | None =>
      match inodes (fs s) !! fd_ino inp, inodes (fs s) !! fd_ino out with
      | Some ni, Some no =>
          if IsDir (i_mode ni) then ret (Some (SysError EISDIR (OpCopy (fd_ino out) (fd_ino inp))))
          else
            modify (set_fs (mkFS (names (fs s))
                                 (<[fd_ino out := set_data (overwrite (i_data ni) (i_data no))
                                                           (clock env) no]>
                                    (inodes (fs s))))) ;;
            ret None
      | _, _ => ret (Some (SysError EIO (OpCopy (fd_ino out) (fd_ino inp))))
      end
  end.

Definition File_Sync (f : File) : M (option error) :=
  let! e := syscall (OpSync (fd_ino f)) in
  ret (match e with Some e => Some (SysError e (OpSync (fd_ino f))) | None => None end).

Definition File_Close (f : File) : M (option error) :=
  let! e := syscall (OpClose (fd_ino f)) in
  ret (match e with Some e => Some (SysError e (OpClose (fd_ino f))) | None => None end).

(** [os.Remove(p)]: the name is removed, and the file with its last
    name. *)
Definition os_Remove (p : string) : M (option error) :=
  let! e := syscall (OpRemove p) in
  let! s := get in
  match e with
  | Some e => ret (Some (SysError e (OpRemove p)))
  | None =>
      match resolve (fs s) p with
      | None => ret (Some (SysError ENOENT (OpRemove p)))
      | Some (i, nd) =>
          modify (set_fs (mkFS (delete p (names (fs s)))
                               (match i_nlink nd with
                                | S (S n) => <[i := set_nlink (S n) nd]> (inodes (fs s))
                                | _ => delete i (inodes (fs s))
                                end))) ;;
          ret None
      end
  end.

(** [atomic.AddInt64]: the new value, on 64 bits. *)
Definition wrap64 (z : Z) : Z := (z + 2 ^ 63) mod 2 ^ 64 - 2 ^ 63.

End Sys.

(* ===================================================================== *)
(** * The program: package [cmd] *)
(* ===================================================================== *)

Module cmd.
Export Sys.

Definition timeFormat : string := "20060102T150405".

Definition extensions : list string :=
  [".jpg"; ".gif"; ".png"; ".jpeg"; ".heic"; ".bmp"; ".tif"; ".jpe"; ".raw";
   ".mp4"; ".mov"; ".m4v"; ".3gp"; ".avi"; ".mkv"; ".webm"; ".flv"; ".wmv";
   ".mpg"; ".m2v"; ".mp2"].

Definition has_extension (ext : string) : bool :=
  existsb (String.eqb ext) extensions.

(** [atomic.AddInt64(&collisions, 1)] and its two siblings. *)
Definition AddInt64_collisions (delta : Z) : M Z :=
  fun _ s => let c := wrap64 (collisions s + delta) in (c, set_collisions c s).
Definition AddInt64_copyErrors (delta : Z) : M Z :=
  fun _ s => let c := wrap64 (copyErrors s + delta) in (c, set_copyErrors c s).
Definition AddInt64_removeErrors (delta : Z) : M Z :=
  fun _ s => let c := wrap64 (removeErrors s + delta) in (c, set_removeErrors c s).

(** A loop over a list, in order. *)
Fixpoint forEach {A} (f : A → M unit) (l : list A) : M unit :=
  match l with
  | [] => ret tt
  | x :: l' => f x ;; forEach f l'
  end.

(** ** The hashing phase *)

(** [processFileHash]: a read error is printed and the function goes on
    with the data it got. The part from [hashesMutex.Lock()] on runs
    under the mutex; the read before it changes nothing, so the job is
    one atomic step at the point where it takes the mutex. *)
Definition processFileHash (path fName : string) : M unit :=
  let fPath := filepath.Join path fName in
  let! (data, err) := ioutil_ReadFile fPath in
  (match err with
   | Some e => Print (LogReadError fPath e)
   | None => ret tt
   end) ;;
  let hash := sha512.Sum512 data in
  let strHash := sha512.Sprintf_x hash in
  let! s := get in
  match hashes s !! strHash with
  | Some current =>
      let! currentCollisions := AddInt64_collisions 1 in
      Print (LogDuplicate currentCollisions fPath current)
  | None => modify (set_hashes (<[strHash := fPath]> (hashes s)))
  end.

(** The jobs [populateHash] submits: one for every entry of a source
    folder that is no directory and has an allowed extension. *)
Definition eligible (f : DirEntry) : bool :=
  negb (de_isdir f) && has_extension (ToLower (filepath.Ext (de_name f))).

Fixpoint enumerate (folders : list string) : M (list (string * string)) :=
  match folders with
  | [] => ret []
  | item :: rest =>
      let! (files, err) := ioutil_ReadDir item in
      (match err with
       | Some e => Print (LogReadDirError e)
       | None => ret tt
       end) ;;
      let! jobs := enumerate rest in
      ret (map (fun f => (item, de_name f)) (filter (fun f => eligible f = true) files)
             ++ jobs)%list
  end.

(** The jobs of the hashing phase, in the order in which they take the
    mutex. *)
Definition hashJobs (order : list (string * string)) : M unit :=
  forEach (fun job => processFileHash (fst job) (snd job)) order.

(** [populateHash]: [sched] is the order in which the workers happen to
    run the jobs; [wg.Wait()] is the end of [hashJobs]. *)
Definition populateHash (sched : list (string * string) → list (string * string))
    (folders : list string) : M unit :=
  modify (set_hashes ∅) ;;
  let! jobs := enumerate folders in
  hashJobs (sched jobs) ;;
  let! s := get in
  Print (LogTotalImages (size (hashes s))) ;;
  Print (LogTotalDuplicates (collisions s)).

(** ** The timestamp of a file *)

Definition getFileTime (filePath : string) : M (Time * option error * bool) :=
  let fileName := filepath.Base filePath in
  let fromMetadata : M (Time * option error * bool) :=
    let! r := os_Open filePath in
    match r with
    | Err err => ret (zero, Some err, false)
    | Ok file =>
        let! exifInfo := exif_Decode file in
        match exifInfo with
        | Ok (Ok dt) => ret (dt, None, false)
        | _ =>
            let! r := times_Stat filePath in
            match r with
            | Ok stat =>
                if HasBirthTime stat then ret (BirthTime stat, None, false)
                else ret (ModTime stat, None, false)
            | Err _ =>
                let! r := File_Stat file in
                match r with
                | Ok st => ret (fi_mtime st, None, false)
                | Err _ => ret (zero, Some (ErrTimeNotCalculated filePath), false)
                end
            end
        end
    end in
  if (len timeFormat <? len fileName)%nat then
    match Parse timeFormat (slice_to (len timeFormat) fileName) with
    | Some pTime => ret (pTime, None, true)
    | None => fromMetadata
    end
  else fromMetadata.

(** ** Placing a file *)

(** [copyFileContents]; the deferred calls run in the reverse order of
    their [defer] statements, and the result of [out.Close()] is returned
    when nothing failed before. *)
Definition copyFileContents (src dst : string) : M (option error) :=
  let! r := os_Open src in
  match r with
  | Err err => ret (Some err)
  | Ok inp =>
      let! r := os_Create dst in
      match r with
      | Err err => File_Close inp ;; ret (Some err)
      | Ok out =>
          let! err := io_Copy out inp in
          let! err := match err with
                      | Some e => ret (Some e)
                      | None => File_Sync out
                      end in
          let! cerr := File_Close out in
          let err := match err with None => cerr | Some _ => err end in
          File_Close inp ;;
          ret err
      end
  end.

Definition copyFile (src dst : string) : M (option error) :=
  let! r := os_Stat src in
  match r with
  | Err err => ret (Some err)
  | Ok sfi =>
      if negb (IsRegular (fi_mode sfi)) then ret (Some (ErrNonRegularSource (fi_name sfi)))
      else
        let tryLink : M (option error) :=
          let! err := os_Link src dst in
          match err with
          | None => ret None
          | Some _ => copyFileContents src dst
          end in
        let! r := os_Stat dst in
        match r with
        | Err err => if negb (IsNotExist err) then ret (Some err) else tryLink
        | Ok dfi =>
            if negb (IsRegular (fi_mode dfi))
            then ret (Some (ErrNonRegularDestination (fi_name dfi)))
            else if SameFile sfi dfi then ret None
            else tryLink
        end
  end.

(** ** The materialization phase *)

(** The name a survivor gets in the destination folder. *)
Definition destFileName (sourceFile : string) : M string :=
  let! env := ask in
  if rename env then
    let! (fTime, err, noRename) := getFileTime sourceFile in
    let! fTime := match err with
                  | Some e => let! now := time_Now in Print (LogPrintln e) ;; ret now
                  | None => ret fTime
                  end in
    if noRename then ret (filepath.Base sourceFile)
    else
      let destFileName := Sprintf_s_s (Format fTime timeFormat) (filepath.Base sourceFile) in
      ret (ReplaceAll destFileName ":" "")
  else ret (filepath.Base sourceFile).

(** What the job does once the destination is known. *)
Definition materialize (sourceFile destinationFile : string) : M unit :=
  let! env := ask in
  if String.eqb sourceFile destinationFile then
    Print (LogSkipped sourceFile destinationFile)
  else if simulate env then
    Print (LogSimulate sourceFile destinationFile)
  else
    (if negb (move env) then Print (LogCopying sourceFile destinationFile)
     else Print (LogMoving sourceFile destinationFile)) ;;
    let! err := copyFile sourceFile destinationFile in
    match err with
    | Some e =>
        Print (LogCopyError sourceFile e) ;;
        AddInt64_copyErrors 1 ;; ret tt
    | None =>
        if move env then
          let! err := os_Remove sourceFile in
          match err with
          | Some e =>
              Print (LogRemoveError sourceFile e) ;;
              AddInt64_removeErrors 1 ;; ret tt
          | None => ret tt
          end
        else ret tt
    end.

(** The job [processHashes] submits for one survivor, carried out without
    interruption. *)
Definition processHashesJob (dest sourceFile : string) : M unit :=
  let! destFileName := destFileName sourceFile in
  let destinationFile := filepath.Clean (filepath.Join dest destFileName) in
  materialize sourceFile destinationFile.

(** The paths recorded in the index. *)
Definition survivors (s : State) : list string := (map_to_list (hashes s)).*2.

(** ** The workers

    [run] starts [runtime.NumCPU() * 2] goroutines, each of which takes
    job after job from the channel [workerJobs]. The jobs of the
    materialization phase take no lock: between two system calls, prints
    or counter updates of one job the other workers can take steps of
    theirs. A job is therefore also given as the tree of its atomic steps:
    a step is a system call, a print, a read of the clock or an atomic
    addition, together with the computation that leads to the next one. *)

Inductive Task (A : Type) : Type :=
| Done (a : A)
| Call {X : Type} (m : M X) (k : X → Task A).
Arguments Done {A} a.
Arguments Call {A X} m k.

(** A task followed by another one, which gets its result. *)
Fixpoint andThen {A B} (t : Task A) (k : A → Task B) : Task B :=
  match t with
  | Done a => k a
  | Call m k' => Call m (fun x => andThen (k' x) k)
  end.

Notation "'step!' x ':=' m 'in' k" := (Call m (fun x => k))
  (at level 10, x pattern, m at level 100, k at level 200).
Notation "'call!' x ':=' t 'in' k" := (andThen t (fun x => k))
  (at level 10, x pattern, t at level 100, k at level 200).

(** A task carried from its first step to its last with no step of
    another task in between. *)
Fixpoint finish {A} (t : Task A) : M A :=
  match t with
  | Done a => ret a
  | Call m k => let! x := m in finish (k x)
  end.

(** The functions of the materialization phase, step by step. The flags
    are package-level variables that no job writes: they are read from
    [env] where the code tests them. *)
Module Steps.

Definition getFileTime (filePath : string) : Task (Time * option error * bool) :=
  let fileName := filepath.Base filePath in
  let fromMetadata : Task (Time * option error * bool) :=
    step! r := os_Open filePath in
    match r with
    | Err err => Done (zero, Some err, false)
    | Ok file =>
        step! exifInfo := exif_Decode file in
        match exifInfo with
        | Ok (Ok dt) => Done (dt, None, false)
        | _ =>
            step! r := times_Stat filePath in
            match r with
            | Ok stat =>
                if HasBirthTime stat then Done (BirthTime stat, None, false)
                else Done (ModTime stat, None, false)
            | Err _ =>
                step! r := File_Stat file in
                match r with
                | Ok st => Done (fi_mtime st, None, false)
                | Err _ => Done (zero, Some (ErrTimeNotCalculated filePath), false)
                end
            end
        end
    end in
  if (len timeFormat <? len fileName)%nat then
    match Parse timeFormat (slice_to (len timeFormat) fileName) with
    | Some pTime => Done (pTime, None, true)
    | None => fromMetadata
    end
  else fromMetadata.

Definition copyFileContents (src dst : string) : Task (option error) :=
  step! r := os_Open src in
  match r with
  | Err err => Done (Some err)
  | Ok inp =>
      step! r := os_Create dst in
      match r with
      | Err err => step! _ := File_Close inp in Done (Some err)
      | Ok out =>
          step! err := io_Copy out inp in
          call! err := match err with
                       | Some e => Done (Some e)
                       | None => step! err := File_Sync out in Done err
                       end in
          step! cerr := File_Close out in
          let err := match err with None => cerr | Some _ => err end in
          step! _ := File_Close inp in
          Done err
      end
  end.

Definition copyFile (src dst : string) : Task (option error) :=
  step! r := os_Stat src in
  match r with
  | Err err => Done (Some err)
  | Ok sfi =>
      if negb (IsRegular (fi_mode sfi)) then Done (Some (ErrNonRegularSource (fi_name sfi)))
      else
        let tryLink : Task (option error) :=
          step! err := os_Link src dst in
          match err with
          | None => Done None
          | Some _ => copyFileContents src dst
          end in
        step! r := os_Stat dst in
        match r with
        | Err err => if negb (IsNotExist err) then Done (Some err) else tryLink
        | Ok dfi =>
            if negb (IsRegular (fi_mode dfi))
            then Done (Some (ErrNonRegularDestination (fi_name dfi)))
            else if SameFile sfi dfi then Done None
            else tryLink
        end
  end.

Definition destFileName (env : Env) (sourceFile : string) : Task string :=
  if rename env then
    call! (fTime, err, noRename) := getFileTime sourceFile in
    call! fTime := match err with
                   | Some e =>
                       step! now := time_Now in
                       step! _ := Print (LogPrintln e) in
                       Done now
                   | None => Done fTime
                   end in
    if noRename then Done (filepath.Base sourceFile)
    else
      let destFileName := Sprintf_s_s (Format fTime timeFormat) (filepath.Base sourceFile) in
      Done (ReplaceAll destFileName ":" "")
  else Done (filepath.Base sourceFile).

Definition materialize (env : Env) (sourceFile destinationFile : string) : Task unit :=
  if String.eqb sourceFile destinationFile then
    step! _ := Print (LogSkipped sourceFile destinationFile) in Done tt
  else if simulate env then
    step! _ := Print (LogSimulate sourceFile destinationFile) in Done tt
  else
    step! _ := (if negb (move env) then Print (LogCopying sourceFile destinationFile)
                else Print (LogMoving sourceFile destinationFile)) in
    call! err := copyFile sourceFile destinationFile in
    match err with
    | Some e =>
        step! _ := Print (LogCopyError sourceFile e) in
        step! _ := AddInt64_copyErrors 1 in
        Done tt
    | None =>
        if move env then
          step! err := os_Remove sourceFile in
          match err with
          | Some e =>
              step! _ := Print (LogRemoveError sourceFile e) in
              step! _ := AddInt64_removeErrors 1 in
              Done tt
          | None => Done tt
          end
        else Done tt
    end.

(** The job [processHashes] submits for one survivor. *)
Definition processHashesJob (env : Env) (dest sourceFile : string) : Task unit :=
  call! destFileName := destFileName env sourceFile in
  let destinationFile := filepath.Clean (filepath.Join dest destFileName) in
  materialize env sourceFile destinationFile.

End Steps.

(** The channel and the workers: the jobs sent and not yet received, in
    the order in which they were sent, and what every worker has left of
    the job it received ([Done]: it is blocked on the channel). *)
Record Pool := mkPool {
  workerJobs : list (Task unit);
  workers : list (Task unit)
}.

(** [worker], one step of it: the next step of the job the worker [id]
    is at, or, when it has none, the receipt of the next job from the
    channel. *)
Definition worker (id : nat) (p : Pool) : M Pool :=
  fun env s =>
    match workers p !! id with
    | Some (Call m k) =>
        let '(x, s') := m env s in
        (mkPool (workerJobs p) (<[id := k x]> (workers p)), s')
    | Some (Done _) =>
        match workerJobs p with
        | job :: rest => (mkPool rest (<[id := job]> (workers p)), s)
        | [] => (p, s)
        end
    | None => (p, s)
    end.

(** The workers take their steps in the order [sched] of their
    numbers, whatever that order is. *)
Fixpoint schedule (sched : list nat) (p : Pool) : M Pool :=
  match sched with
  | [] => ret p
  | id :: sched' => let! p := worker id p in schedule sched' p
  end.

(** [wg.Wait()]: every job is carried to its end. From where [sched]
    ends the workers finish their jobs one after the other, and the jobs
    still in the channel follow in their order. *)
Definition Wait (p : Pool) : M unit :=
  forEach finish (workers p) ;; forEach finish (workerJobs p).

(** The pool when [processHashes] has submitted its jobs: one job for
    every value of [hashes], in the order [order] in which Go happens to
    range over the map, and [concurrency] workers blocked on the channel.
    (The channel holds [concurrency] jobs at most and the loop that sends
    them blocks when it is full; the order in which the workers receive
    the jobs is the order of the loop all the same.) *)
Definition submitted (env : Env) (concurrency : nat) (dest : string) (order : list string)
    : Pool :=
  mkPool (Steps.processHashesJob env dest <$> order) (replicate concurrency (Done tt)).

(** [processHashes]: the jobs are run by the workers, whose steps
    interleave as [sched] says. *)
Definition processHashes (concurrency : nat) (sched : list nat) (dest : string)
    (order : list string) : M unit :=
  let! env := ask in
  let! p := schedule sched (submitted env concurrency dest order) in
  Wait p.

(** The runs of [processHashes] in which no two jobs overlap: every job
    is carried from its first step to its last before the next one
    starts, in the order [order]. *)
Definition processHashesSeq (dest : string) (order : list string) : M unit :=
  forEach (processHashesJob dest) order.

End cmd.

(* ===================================================================== *)
(** * What is observed of a run *)
(* ===================================================================== *)

Module Obs.
Export cmd.

(** The same environment with another [simulate] flag. *)
Definition with_simulate (b : bool) (env : Env) : Env :=
  mkEnv (rename env) (move env) b (clock env) (faults env) (exif env).

(** The package-level variables and the output. *)
Definition prog (s : State) : gmap string string * Z * Z * Z * list LogLine :=
  (hashes s, collisions s, copyErrors s, removeErrors s, stdout s).

Definition add_traces (tr : list Op) (s : State) : State :=
  mkState (fs s) (trace s ++ tr) (hashes s) (collisions s) (copyErrors s)
          (removeErrors s) (stdout s).
Definition add_stdouts (out : list LogLine) (s : State) : State :=
  mkState (fs s) (trace s) (hashes s) (collisions s) (copyErrors s) (removeErrors s)
          (stdout s ++ out).

(** A computation that only observes the file system: its result and
    what it adds to the trace and to the output are determined by the
    environment and the file system, the calls it makes change no file,
    and it leaves everything else as it is. *)
Definition observer {A} (m : M A) : Prop :=
  ∀ env s, ∃ tr out,
    Forall (fun o => mutating o = false) tr ∧
    ∀ s', fs s' = fs s →
      m env s' = (fst (m env s), add_stdouts out (add_traces tr s')).

(** A computation that leaves the variables of the program and its
    output alone. *)
Definition sys_only {A} (m : M A) : Prop :=
  ∀ env s, prog (snd (m env s)) = prog s.

(** Every system call [m] makes satisfies [P]. *)
Definition calls {A} (P : Op → Prop) (m : M A) : Prop :=
  ∀ env s, ∃ tr, trace (snd (m env s)) = (trace s ++ tr)%list ∧ Forall P tr.

Definition no_removal (o : Op) : Prop := ∀ p, o ≠ OpRemove p.

(** The environment may refuse a hard link (another volume, a file
    system without links), and nothing else. *)
Definition only_links_fail (env : Env) : Prop :=
  ∀ o, (∀ src dst, o ≠ OpLink src dst) → faults env o = None.

(** The path [d] names the regular file of inode [j], of content [c]. *)
Definition placed (f : FS) (d : string) (j : nat) (c : list byte) : Prop :=
  ∃ nd, resolve f d = Some (j, nd) ∧ i_mode nd = ModeRegular ∧ i_data nd = c.

(** Whether a string has a separator. *)
Fixpoint has_sep (s : string) : bool :=
  match s with
  | EmptyString => false
  | String c s' => filepath.IsPathSeparator c || has_sep s'
  end.

(** A path element proper: not empty, not [.] or [..], and without a
    separator. *)
Definition element (e : string) : Prop :=
  e ≠ "" ∧ e ≠ "." ∧ e ≠ ".." ∧ has_sep e = false.

(** A computation that does not read the flag [simulate]. *)
Definition simulate_blind {A} (m : M A) : Prop :=
  ∀ b env s, m (with_simulate b env) s = m env s.

(** The source-to-destination pairs a simulated run reports. *)
Fixpoint reported (log : list LogLine) : list (string * string) :=
  match log with
  | [] => []
  | LogSimulate src dst :: log' => (src, dst) :: reported log'
  | _ :: log' => reported log'
  end.

(** The pairs a real run hands to [copyFile]; each call is announced by
    a [Copying] or [Moving] line. *)
Fixpoint attempted (log : list LogLine) : list (string * string) :=
  match log with
  | [] => []
  | LogCopying src dst :: log' => (src, dst) :: attempted log'
  | LogMoving src dst :: log' => (src, dst) :: attempted log'
  | _ :: log' => attempted log'
  end.

(** The destination path the job computes for a survivor, on the file
    system [f]. *)
Definition destinationOn (env : Env) (dest : string) (f : FS) (sourceFile : string)
    : string :=
  filepath.Clean (filepath.Join dest
    (fst (destFileName sourceFile env (mkState f [] ∅ 0 0 0 [])))).

Definition option_list {A} (o : option A) : list A :=
  match o with Some a => [a] | None => [] end.

(** The source-to-destination pair of a survivor, if its job is not
    skipped. *)
Definition mapping (env : Env) (dest : string) (f : FS) (sourceFile : string)
    : option (string * string) :=
  let destinationFile := destinationOn env dest f sourceFile in
  if String.eqb sourceFile destinationFile then None
  else Some (sourceFile, destinationFile).

Definition mappings (env : Env) (dest : string) (f : FS) (order : list string)
    : list (string * string) :=
  omap (mapping env dest f) order.

(** The jobs of [order], run one after the other from [s], all compute
    the destination they would compute on the file system [f0]: no job
    changes a file in a way that changes the name a later job resolves. *)
Fixpoint undisturbed (env : Env) (dest : string) (f0 : FS) (order : list string)
    (s : State) : Prop :=
  match order with
  | [] => True
  | sourceFile :: order' =>
      destinationOn env dest (fs s) sourceFile = destinationOn env dest f0 sourceFile ∧
      undisturbed env dest f0 order' (snd (processHashesJob dest sourceFile env s))
  end.

(** Whether a worker is between two jobs. *)
Definition idle {A} (t : Task A) : bool :=
  match t with Done _ => true | Call _ _ => false end.

Definition others_idle (id : nat) (p : Pool) : bool :=
  forallb idle (take id (workers p)) && forallb idle (drop (S id) (workers p)).

(** Whether a schedule lets no two jobs overlap: a worker takes a step
    only while every other worker is between two jobs. *)
Fixpoint exclusive (sched : list nat) (p : Pool) : M bool :=
  match sched with
  | [] => ret true
  | id :: sched' =>
      if others_idle id p then let! p := worker id p in exclusive sched' p
      else ret false
  end.

Definition no_overlap (concurrency : nat) (sched : list nat) (dest : string)
    (order : list string) (env : Env) (s : State) : Prop :=
  fst (exclusive sched (submitted env concurrency dest order) env s) = true.

(** The digest [processFileHash] computes for a job. *)
Definition jobPath (job : string * string) : string := filepath.Join (fst job) (snd job).

Definition strHash (data : list byte) : string := sha512.Sprintf_x (sha512.Sum512 data).

Definition readOf (env : Env) (f : FS) (fPath : string) : list byte * option error :=
  fst (ioutil_ReadFile fPath env (mkState f [] ∅ 0 0 0 [])).

Definition digestOf (env : Env) (f : FS) (fPath : string) : string :=
  strHash (fst (readOf env f fPath)).

(** The jobs whose file has the digest [d], in the order of the run. *)
Definition classOf (env : Env) (f : FS) (d : string) (order : list (string * string))
    : list (string * string) :=
  filter (fun job => digestOf env f (jobPath job) = d) order.

(** The number of times the collision counter was incremented for a
    file of digest [d]: every increment prints one [LogDuplicate] line
    that names the file. *)
Fixpoint incrementsFor (env : Env) (f : FS) (d : string) (log : list LogLine) : nat :=
  match log with
  | [] => 0
  | LogDuplicate _ fPath _ :: log' =>
      ((if String.eqb (digestOf env f fPath) d then 1 else 0) + incrementsFor env f d log')%nat
  | _ :: log' => incrementsFor env f d log'
  end.

(** The number of duplicate lines of an output. *)
Fixpoint duplicateLines (log : list LogLine) : nat :=
  match log with
  | [] => 0
  | LogDuplicate _ _ _ :: log' => S (duplicateLines log')
  | _ :: log' => duplicateLines log'
  end.

(** A string without its colons. *)
Fixpoint remove_colons (s : string) : string :=
  match s with
  | EmptyString => EmptyString
  | String c s' => if Ascii.eqb c ":"%char then remove_colons s' else String c (remove_colons s')
  end.

(** The timestamp the job uses for a file: the one of [getFileTime], or
    the clock when that fails. *)
Definition resolvedTime (env : Env) (s : State) (sourceFile : string) : Time :=
  match fst (getFileTime sourceFile env s) with
  | (_, Some _, _) => clock env
  | (t, None, _) => t
  end.

End Obs.

(* ===================================================================== *)
(** * Concrete worlds, for the examples *)
(* ===================================================================== *)

Module Scenario.
Export Obs.

Definition noon : Time := mkTime 2021 6 15 12 0 0.
Definition earlier : Time := mkTime 2019 3 4 5 6 7.

(** No injected failure, and no EXIF data in any file. *)
Definition quiet : Op → option errno := fun _ => None.
Definition no_exif : list byte → option (option Time) := fun _ => None.

Definition env_of (rename move simulate : bool) : Env :=
  mkEnv rename move simulate noon quiet no_exif.

Definition file (data : string) : Inode :=
  mkInode ModeRegular (list_byte_of_string data) 1 earlier None.
Definition folder : Inode := mkInode ModeDir [] 2 earlier None.

(** The state at the start of a run on the file system [f]. *)
Definition start (f : FS) : State := mkState f [] ∅ 0 0 0 [].

(** A file whose name is a timestamp and nothing more. *)
Definition fs_stamp : FS :=
  mkFS {[ "/in/20200102T030405" := 1%nat ]} {[ 1%nat := file "x" ]}.

(** A file that this program renamed in an earlier run. *)
Definition fs_renamed : FS :=
  mkFS {[ "/in/20200102T030405 a.jpg" := 1%nat ]} {[ 1%nat := file "x" ]}.

(** One photo. *)
Definition fs_one : FS := mkFS {[ "/in/a.jpg" := 1%nat ]} {[ 1%nat := file "x" ]}.

(** No file can be opened or read, for lack of permission; names and
    metadata are accessible. *)
Definition locked : Op → option errno :=
  fun o => match o with
           | OpOpen _ | OpReadFile _ => Some EACCES
           | _ => None
           end.

Definition env_locked : Env := mkEnv true false false noon locked no_exif.

(** A file of the destination folder that carries its timestamp. *)
Definition fs_placed : FS :=
  mkFS {[ "/out/20200102T030405 a.jpg" := 1%nat ]} {[ 1%nat := file "x" ]}.

(** A socket with two names. *)
Definition fs_socket : FS :=
  mkFS {[ "/in/s.jpg" := 1%nat; "/out/s.jpg" := 1%nat ]}
       {[ 1%nat := mkInode ModeIrregular [] 2 earlier None ]}.

(** A regular file with two names. *)
Definition fs_linked : FS :=
  mkFS {[ "/in/a.jpg" := 1%nat; "/out/b.jpg" := 1%nat ]}
       {[ 1%nat := mkInode ModeRegular (list_byte_of_string "x") 2 earlier None ]}.

(** The source cannot be removed. *)
Definition sticky : Op → option errno :=
  fun o => match o with OpRemove _ => Some EPERM | _ => None end.

(** Two photos that cannot be read, of different content. *)
Definition fs_two : FS :=
  mkFS {[ "/in/a.jpg" := 1%nat; "/in/b.jpg" := 2%nat ]}
       {[ 1%nat := file "x"; 2%nat := file "y" ]}.

(** Two photos of the same content, and a third one. *)
Definition fs_three : FS :=
  mkFS {[ "/a/a.jpg" := 1%nat; "/b/b.jpg" := 2%nat; "/a/c.jpg" := 3%nat ]}
       {[ 1%nat := file "xx"; 2%nat := file "xx"; 3%nat := file "yy" ]}.

(** A photo without EXIF data and an older photo with EXIF data, whose
    name in the destination folder is taken by a file that an earlier
    run linked to the second photo. *)
Definition fs_rerun : FS :=
  mkFS {[ "/a/p.jpg" := 1%nat; "/b/p.jpg" := 2%nat;
          "/out/20190304T050607 p.jpg" := 2%nat ]}
       {[ 1%nat := file "plain";
          2%nat := mkInode ModeRegular (list_byte_of_string "dated") 2 earlier None ]}.

Definition exif_dated : list byte → option (option Time) :=
  fun data => if decide (data = list_byte_of_string "dated") then Some (Some earlier)
              else None.

Definition env_rerun : Env := mkEnv true false false noon quiet exif_dated.

(** Two photos of different content and of the same name, in two
    folders. *)
Definition fs_namesakes : FS :=
  mkFS {[ "/a/x.jpg" := 1%nat; "/b/x.jpg" := 2%nat ]}
       {[ 1%nat := file "first"; 2%nat := file "second" ]}.

(** Links are refused: the destination is on another volume. *)
Definition other_volume : Op → option errno :=
  fun o => match o with OpLink _ _ => Some EXDEV | _ => None end.

(** The scenario of the specification: two source folders with [a.jpg]
    and [b.jpg] of identical bytes and [c.jpg] of other bytes, next to a
    sub-folder and a text file, and an empty destination folder. *)
Definition fs_spec : FS :=
  mkFS {[ "/s1" := 1%nat; "/s2" := 2%nat; "/out" := 3%nat;
          "/s1/a.jpg" := 4%nat; "/s2/b.jpg" := 5%nat; "/s1/c.JPG" := 6%nat;
          "/s1/old.jpg" := 7%nat; "/s2/notes.txt" := 8%nat ]}
       {[ 1%nat := folder; 2%nat := folder; 3%nat := folder;
          4%nat := file "xx"; 5%nat := file "xx"; 6%nat := file "yy";
          7%nat := folder; 8%nat := file "zz" ]}.

End Scenario.

(* ===================================================================== *)
(** * Properties *)
(* ===================================================================== *)

Import Scenario.
Local Open Scope list_scope.

(** ** Sanity checks of the library models *)

Example sha512_empty :
  strHash [] = "cf83e1357eefb8bdf1542850d66d8007d620e4050b5715dc83f4a921d36ce9ce47d0d13c5d85f2b0ff8318d2877eec2f63b931bd47417a81a538327af927da3e".
Proof. vm_compute. reflexivity. Qed.

Example sha512_abc :
  strHash (list_byte_of_string "abc") = "ddaf35a193617abacc417349ae20413112e6fa4e89a97ea20a9eeee64b55d39a2192992a274fc1a836ba3c23a3feebbd454d4423643ce80e2a9ac94fa54ca49f".
Proof. vm_compute. reflexivity. Qed.

Example sha512_round_constants :
  nth 0 sha512.K 0 = 0x428a2f98d728ae22 ∧ nth 79 sha512.K 0 = 0x6c44198c4a475817 ∧
  nth 0 sha512.H0 0 = 0x6a09e667f3bcc908.
Proof. vm_compute. auto. Qed.

Example timeFormat_chunks :
  nextStdChunks 0 timeFormat =
  [stdLongYear; stdZeroMonth; stdZeroDay; stdLit "T"; stdHour; stdZeroMinute; stdZeroSecond].
Proof. reflexivity. Qed.

Example Parse_examples :
  Parse timeFormat "20200229T235959" = Some (mkTime 2020 2 29 23 59 59) ∧
  Parse timeFormat "20210229T235959" = None ∧
  Parse timeFormat "20200101T240000" = None ∧
  Parse timeFormat "2020-01-01T0000" = None.
Proof. vm_compute. auto. Qed.

Example Format_examples :
  Format (mkTime 2020 2 9 3 4 5) timeFormat = "20200209T030405" ∧
  Format zero timeFormat = "00010101T000000".
Proof. vm_compute. auto. Qed.

Example filepath_examples :
  filepath.Clean "/a//b/./c/../d/" = "/a/b/d" ∧ filepath.Clean "a/../../b" = "../b" ∧
  filepath.Join "/d" "x.jpg" = "/d/x.jpg" ∧ filepath.Base "/a/b.jpg" = "b.jpg" ∧
  filepath.Base "/a/b/" = "b" ∧ filepath.Base "///" = "/" ∧ filepath.Base "" = "." ∧
  filepath.Ext "/a.b/c" = "" ∧ filepath.Ext "/a/b.JPG" = ".JPG".
Proof. vm_compute. repeat split. Qed.

(** ** The monad *)

Section Monad.
Context {A B : Type}.

Lemma bind_run (m : M A) (k : A → M B) env s :
  bind m k env s = k (fst (m env s)) env (snd (m env s)).
Proof. unfold bind. destruct (m env s); reflexivity. Qed.

Lemma ret_run (a : A) env s : ret a env s = (a, s).
Proof. reflexivity. Qed.
End Monad.

Lemma add_traces_nil s : add_traces [] s = s.
Proof. destruct s; unfold add_traces; simpl. by rewrite app_nil_r. Qed.

Lemma add_stdouts_nil s : add_stdouts [] s = s.
Proof. destruct s; unfold add_stdouts; simpl. by rewrite app_nil_r. Qed.

Lemma add_effects_app tr1 out1 tr2 out2 s :
  add_stdouts out2 (add_traces tr2 (add_stdouts out1 (add_traces tr1 s))) =
  add_stdouts (out1 ++ out2) (add_traces (tr1 ++ tr2) s).
Proof. destruct s; unfold add_stdouts, add_traces; simpl. by rewrite !app_assoc. Qed.

Lemma add_trace_traces o s : add_trace o s = add_stdouts [] (add_traces [o] s).
Proof. by rewrite add_stdouts_nil. Qed.

Lemma add_stdout_stdouts l s : add_stdout l s = add_stdouts [l] (add_traces [] s).
Proof. by rewrite add_traces_nil. Qed.

(** ** Computations that only observe the file system *)

Lemma observer_ret {A} (a : A) : observer (ret a).
Proof.
  intros env s. exists [], []. split; [constructor|]. intros s' _.
  by rewrite add_traces_nil, add_stdouts_nil.
Qed.

Lemma observer_bind {A B} (m : M A) (k : A → M B) :
  observer m → (∀ a, observer (k a)) → observer (bind m k).
Proof.
  intros Hm Hk env s.
  destruct (Hm env s) as (tr1 & out1 & Htr1 & Hrun1).
  pose proof (Hrun1 s eq_refl) as Hs.
  destruct (Hk (fst (m env s)) env (snd (m env s))) as (tr2 & out2 & Htr2 & Hrun2).
  exists (tr1 ++ tr2), (out1 ++ out2). split; [by apply Forall_app|].
  intros s' Hs'. rewrite !bind_run. rewrite (Hrun1 s' Hs'). simpl.
  rewrite Hrun2.
  - by rewrite add_effects_app.
  - rewrite Hs. simpl. exact Hs'.
Qed.

Lemma observer_ask : observer ask.
Proof.
  intros env s. exists [], []. split; [constructor|]. intros s' _.
  unfold ask; simpl. by rewrite add_traces_nil, add_stdouts_nil.
Qed.

Lemma observer_time_Now : observer time_Now.
Proof.
  intros env s. exists [], []. split; [constructor|]. intros s' _.
  unfold time_Now; simpl. by rewrite add_traces_nil, add_stdouts_nil.
Qed.

Lemma observer_Print l : observer (Print l).
Proof.
  intros env s. exists [], [l]. split; [constructor|]. intros s' _.
  unfold Print, modify; simpl. by rewrite add_stdout_stdouts.
Qed.

(** The proof for a system call that reads: one entry in the trace, and
    a result that is a function of the file system. *)
Ltac observer_syscall o :=
  let env := fresh "env" in
  let s := fresh "s" in
  let s' := fresh "s'" in
  let Hs' := fresh "Hs'" in
  intros env s; exists [o], []; split; [by repeat constructor|];
  intros s' Hs'; unfold bind, syscall, get, ask, ret; simpl;
  rewrite ?Hs', <- !add_trace_traces;
  repeat case_match; simplify_eq; reflexivity.

Lemma observer_os_Stat p : observer (os_Stat p).
Proof. unfold os_Stat. observer_syscall (OpStat p). Qed.

Lemma observer_os_Open p : observer (os_Open p).
Proof. unfold os_Open. observer_syscall (OpOpen p). Qed.

Lemma observer_ioutil_ReadFile p : observer (ioutil_ReadFile p).
Proof. unfold ioutil_ReadFile. observer_syscall (OpReadFile p). Qed.

Lemma observer_ioutil_ReadDir p : observer (ioutil_ReadDir p).
Proof. unfold ioutil_ReadDir. observer_syscall (OpReadDir p). Qed.

Lemma observer_exif_Decode f : observer (exif_Decode f).
Proof. unfold exif_Decode. observer_syscall (OpExifDecode (fd_ino f)). Qed.

Lemma observer_times_Stat p : observer (times_Stat p).
Proof. unfold times_Stat. observer_syscall (OpTimesStat p). Qed.

Lemma observer_File_Stat f : observer (File_Stat f).
Proof. unfold File_Stat. observer_syscall (OpFileStat (fd_ino f)). Qed.

Create HintDb observer.
#[export] Hint Resolve observer_ret observer_ask observer_time_Now observer_Print
  observer_os_Stat observer_os_Open observer_ioutil_ReadFile observer_ioutil_ReadDir
  observer_exif_Decode observer_times_Stat observer_File_Stat : observer.

(** Goes through the binds and the case distinctions of a computation. *)
Ltac observer_auto :=
  repeat first
    [ solve [auto with observer]
    | apply observer_bind; [|intros ?]
    | match goal with
      | |- observer (match ?x with _ => _ end) => destruct x
      | |- observer (if ?b then _ else _) => destruct b
      | |- observer (let _ := _ in _) => hnf
      end ].

Lemma observer_getFileTime filePath : observer (getFileTime filePath).
Proof. unfold getFileTime. observer_auto. Qed.

Lemma observer_destFileName sourceFile : observer (destFileName sourceFile).
Proof.
  unfold destFileName. apply observer_bind; [auto with observer|]. intros env.
  destruct (rename env); [|auto with observer].
  apply observer_bind; [apply observer_getFileTime|]. intros [[fTime err] noRename].
  observer_auto.
Qed.

(** What an observer leaves unchanged. *)
Lemma observer_frame {A} (m : M A) env s :
  observer m →
  let s' := snd (m env s) in
  fs s' = fs s ∧ hashes s' = hashes s ∧ collisions s' = collisions s ∧
  copyErrors s' = copyErrors s ∧ removeErrors s' = removeErrors s ∧
  ∃ tr, trace s' = trace s ++ tr ∧ Forall (fun o => mutating o = false) tr.
Proof.
  intros Hm. destruct (Hm env s) as (tr & out & Htr & Hrun).
  cbn zeta. rewrite (Hrun s eq_refl). simpl. repeat split. by exists tr.
Qed.

(** The result of an observer is a function of the file system. *)
Lemma observer_result {A} (m : M A) env s s' :
  observer m → fs s' = fs s → fst (m env s') = fst (m env s).
Proof.
  intros Hm Hfs. destruct (Hm env s) as (tr & out & Htr & Hrun).
  by rewrite (Hrun s' Hfs).
Qed.

(** ** Computations that only make system calls *)

Lemma sys_only_ret {A} (a : A) : sys_only (ret a).
Proof. by intros env s. Qed.

Lemma sys_only_bind {A B} (m : M A) (k : A → M B) :
  sys_only m → (∀ a, sys_only (k a)) → sys_only (bind m k).
Proof. intros Hm Hk env s. rewrite bind_run. by rewrite Hk, Hm. Qed.

Ltac sys_only_syscall :=
  let env := fresh "env" in
  let s := fresh "s" in
  intros env s; unfold bind, syscall, get, ask, ret, modify; simpl;
  repeat case_match; simplify_eq; reflexivity.

Lemma sys_only_os_Stat p : sys_only (os_Stat p).
Proof. unfold os_Stat. sys_only_syscall. Qed.

Lemma sys_only_os_Open p : sys_only (os_Open p).
Proof. unfold os_Open. sys_only_syscall. Qed.

Lemma sys_only_os_Link src dst : sys_only (os_Link src dst).
Proof. unfold os_Link. sys_only_syscall. Qed.

Lemma sys_only_os_Create dst : sys_only (os_Create dst).
Proof. unfold os_Create. sys_only_syscall. Qed.

Lemma sys_only_io_Copy out inp : sys_only (io_Copy out inp).
Proof. unfold io_Copy. sys_only_syscall. Qed.

Lemma sys_only_File_Sync f : sys_only (File_Sync f).
Proof. unfold File_Sync. sys_only_syscall. Qed.

Lemma sys_only_File_Close f : sys_only (File_Close f).
Proof. unfold File_Close. sys_only_syscall. Qed.

Lemma sys_only_os_Remove p : sys_only (os_Remove p).
Proof. unfold os_Remove. sys_only_syscall. Qed.

Create HintDb sys_only.
#[export] Hint Resolve sys_only_ret sys_only_os_Stat sys_only_os_Open sys_only_os_Link
  sys_only_os_Create sys_only_io_Copy sys_only_File_Sync sys_only_File_Close
  sys_only_os_Remove : sys_only.

Ltac sys_only_auto :=
  repeat first
    [ solve [auto with sys_only]
    | apply sys_only_bind; [|intros ?]
    | match goal with
      | |- sys_only (match ?x with _ => _ end) => destruct x
      | |- sys_only (if ?b then _ else _) => destruct b
      | |- sys_only (let _ := _ in _) => hnf
      end ].

Lemma sys_only_copyFileContents src dst : sys_only (copyFileContents src dst).
Proof. unfold copyFileContents. sys_only_auto. Qed.

#[export] Hint Resolve sys_only_copyFileContents : sys_only.

Lemma sys_only_copyFile src dst : sys_only (copyFile src dst).
Proof. unfold copyFile. sys_only_auto. Qed.

Lemma prog_fields s s' :
  prog s' = prog s →
  hashes s' = hashes s ∧ collisions s' = collisions s ∧ copyErrors s' = copyErrors s ∧
  removeErrors s' = removeErrors s ∧ stdout s' = stdout s.
Proof. unfold prog. intros H. by simplify_eq. Qed.

(** ** The timestamp resolver *)

(** [getFileTime] never reports an error together with the
    already-named signal. *)
Lemma getFileTime_error filePath env s t e b :
  fst (getFileTime filePath env s) = (t, Some e, b) → t = zero ∧ b = false.
Proof.
  unfold getFileTime. rewrite ?bind_run.
  repeat (case_match; rewrite ?bind_run, ?ret_run; simpl);
    intros; simplify_eq; auto.
Qed.

(** C2, as amended: when the base name is longer than the 15 bytes of
    [timeFormat] and its first 15 bytes parse against it, [getFileTime]
    returns the parsed time, no error and [timeInPath = true], and makes no
    system call at all: the state, trace included, is the one it started
    from. *)
Theorem getFileTime_name_prefix filePath env s t :
  (len timeFormat < len (filepath.Base filePath))%nat →
  Parse timeFormat (slice_to (len timeFormat) (filepath.Base filePath)) = Some t →
  getFileTime filePath env s = ((t, None, true), s).
Proof.
  intros Hlen Hparse. unfold getFileTime.
  apply Nat.ltb_lt in Hlen. rewrite Hlen, Hparse. reflexivity.
Qed.

Lemma getFileTime_name_prefix_witness :
  getFileTime "/in/20200102T030405 a.jpg" (env_of true false false) (start fs_renamed) =
  ((mkTime 2020 1 2 3 4 5, None, true), start fs_renamed).
Proof.
  apply (getFileTime_name_prefix "/in/20200102T030405 a.jpg"); vm_compute; [lia | reflexivity].
Defined.

(** C2, as stated, fails for a base name of exactly 15 bytes: the test in
    the code is [len(fileName) > len(timeFormat)]. The file
    [/in/20200102T030405] gets the modification time of its inode, and
    [timeInPath = false]. *)
Lemma getFileTime_name_of_15_bytes :
  ¬ (∀ filePath env s t,
       (len timeFormat ≤ len (filepath.Base filePath))%nat →
       Parse timeFormat (slice_to (len timeFormat) (filepath.Base filePath)) = Some t →
       getFileTime filePath env s = ((t, None, true), s)).
Proof.
  intros H.
  specialize (H "/in/20200102T030405" (env_of true false false) (start fs_stamp)
                (mkTime 2020 1 2 3 4 5)).
  assert (fst (getFileTime "/in/20200102T030405" (env_of true false false) (start fs_stamp))
          = (earlier, None, false)) as Hrun by (vm_compute; reflexivity).
  rewrite H in Hrun; [discriminate | vm_compute; lia | vm_compute; reflexivity].
Qed.

(** ** The name of the destination file *)

Lemma ReplaceAll_colon s : ReplaceAll s ":" "" = remove_colons s.
Proof.
  unfold ReplaceAll. induction s as [|c s IH]; [reflexivity|].
  cbn [replace_from remove_colons HasPrefix].
  rewrite (Ascii.eqb_sym ":"%char c).
  destruct (Ascii.eqb c ":"%char); cbn; by rewrite IH.
Qed.

Lemma remove_colons_no_colon s :
  ¬ In ":"%char (list_ascii_of_string (remove_colons s)).
Proof.
  induction s as [|c s IH]; simpl; [tauto|].
  destruct (Ascii.eqb_spec c ":"); simpl; [exact IH|].
  intros [->|H]; auto.
Qed.

Lemma destFileName_run sourceFile env s :
  destFileName sourceFile env s =
  if rename env then
    let '(fTime, err, noRename) := fst (getFileTime sourceFile env s) in
    let s1 := snd (getFileTime sourceFile env s) in
    let s2 := match err with Some e => add_stdout (LogPrintln e) s1 | None => s1 end in
    let t := match err with Some _ => clock env | None => fTime end in
    (if noRename then filepath.Base sourceFile
     else remove_colons (Sprintf_s_s (Format t timeFormat) (filepath.Base sourceFile)), s2)
  else (filepath.Base sourceFile, s).
Proof.
  unfold destFileName. rewrite bind_run. cbn [ask fst snd].
  destruct (rename env); [|reflexivity].
  rewrite bind_run. destruct (getFileTime sourceFile env s) as [[[fTime err] noRename] s1].
  cbn [fst snd]. rewrite bind_run.
  destruct err as [e|]; cbn; destruct noRename; by rewrite ?ReplaceAll_colon.
Qed.

(** C8: with renaming enabled and no already-named signal from the
    resolver, the destination file name is the resolved timestamp printed
    with [timeFormat], a space and the base name of the source, the whole
    without its colons; in every other case (renaming disabled, or the
    signal given) it is the base name of the source as it is. *)
Theorem destFileName_is sourceFile env s :
  fst (destFileName sourceFile env s) =
  if rename env && negb (snd (fst (getFileTime sourceFile env s)))
  then remove_colons (Format (resolvedTime env s sourceFile) timeFormat ++ " "
                        ++ filepath.Base sourceFile)%string
  else filepath.Base sourceFile.
Proof.
  rewrite destFileName_run. unfold resolvedTime.
  destruct (rename env); [|reflexivity].
  destruct (getFileTime sourceFile env s) as [[[fTime err] noRename] s1]. cbn.
  destruct noRename, err; reflexivity.
Qed.

Example destFileName_colon :
  fst (destFileName "/in/a:b.jpg" (env_of true false false)
         (start (mkFS {[ "/in/a:b.jpg" := 1%nat ]} {[ 1%nat := file "x" ]}))) =
  "20190304T050607 ab.jpg".
Proof. vm_compute. reflexivity. Qed.

(** ** One job of the materialization phase *)

Lemma processHashesJob_run dest sourceFile env s :
  processHashesJob dest sourceFile env s =
  materialize sourceFile
    (filepath.Clean (filepath.Join dest (fst (destFileName sourceFile env s))))
    env (snd (destFileName sourceFile env s)).
Proof. unfold processHashesJob. by rewrite bind_run. Qed.

Lemma materialize_skip sourceFile env s :
  materialize sourceFile sourceFile env s = (tt, add_stdout (LogSkipped sourceFile sourceFile) s).
Proof.
  unfold materialize. rewrite bind_run. cbn [ask fst snd].
  by rewrite String.eqb_refl.
Qed.

Lemma materialize_simulate sourceFile destinationFile env s :
  simulate env = true → sourceFile ≠ destinationFile →
  materialize sourceFile destinationFile env s =
  (tt, add_stdout (LogSimulate sourceFile destinationFile) s).
Proof.
  intros Hsim Hne. unfold materialize. rewrite bind_run. cbn [ask fst snd].
  apply String.eqb_neq in Hne. by rewrite Hne, Hsim.
Qed.

(** The real job: the line that announces the copy, [copyFile], and then
    the error count or the removal of the source. *)
Lemma materialize_real sourceFile destinationFile env s :
  simulate env = false → sourceFile ≠ destinationFile →
  let s0 := add_stdout (if move env then LogMoving sourceFile destinationFile
                        else LogCopying sourceFile destinationFile) s in
  let s1 := snd (copyFile sourceFile destinationFile env s0) in
  materialize sourceFile destinationFile env s =
  (tt, match fst (copyFile sourceFile destinationFile env s0) with
       | Some e =>
           set_copyErrors (wrap64 (copyErrors s + 1)) (add_stdout (LogCopyError sourceFile e) s1)
       | None =>
           if move env then
             let s2 := snd (os_Remove sourceFile env s1) in
             match fst (os_Remove sourceFile env s1) with
             | Some e =>
                 set_removeErrors (wrap64 (removeErrors s + 1))
                                  (add_stdout (LogRemoveError sourceFile e) s2)
             | None => s2
             end
           else s1
       end).
Proof.
  intros Hsim Hne. cbn zeta. unfold materialize. rewrite bind_run. cbn [ask fst snd].
  apply String.eqb_neq in Hne. rewrite Hne, Hsim.
  pose proof (sys_only_copyFile sourceFile destinationFile env) as Hcopy.
  destruct (move env); cbn [negb]; rewrite bind_run; cbn [Print modify fst snd];
    rewrite bind_run;
    match goal with |- context [copyFile _ _ _ ?s0] =>
      specialize (Hcopy s0); apply prog_fields in Hcopy;
      destruct Hcopy as (_ & _ & Hce & Hre & _);
      destruct (copyFile sourceFile destinationFile env s0) as [[e|] s1] end;
    cbn [fst snd] in *; cbn in Hce, Hre.
  - unfold bind, Print, modify, AddInt64_copyErrors, ret; cbn. by rewrite Hce.
  - rewrite bind_run.
    pose proof (sys_only_os_Remove sourceFile env s1) as Hrm.
    apply prog_fields in Hrm. destruct Hrm as (_ & _ & _ & Hre' & _).
    destruct (os_Remove sourceFile env s1) as [[e|] s2]; cbn [fst snd] in *; [|reflexivity].
    unfold bind, Print, modify, AddInt64_removeErrors, ret; cbn. by rewrite Hre', Hre.
  - unfold bind, Print, modify, AddInt64_copyErrors, ret; cbn. by rewrite Hce.
  - reflexivity.
Qed.

Lemma attempted_app l1 l2 : attempted (l1 ++ l2) = attempted l1 ++ attempted l2.
Proof.
  induction l1 as [|[] l1 IH]; simpl; rewrite ?IH; reflexivity.
Qed.

Lemma reported_app l1 l2 : reported (l1 ++ l2) = reported l1 ++ reported l2.
Proof.
  induction l1 as [|[] l1 IH]; simpl; rewrite ?IH; reflexivity.
Qed.

(** The real job announces exactly one copy, the one it then attempts. *)
Lemma materialize_real_attempted sourceFile destinationFile env s :
  simulate env = false → sourceFile ≠ destinationFile →
  attempted (stdout (snd (materialize sourceFile destinationFile env s))) =
  attempted (stdout s) ++ [(sourceFile, destinationFile)].
Proof.
  intros Hsim Hne. rewrite (materialize_real _ _ _ _ Hsim Hne). cbn [snd].
  set (s0 := add_stdout _ s).
  assert (attempted (stdout s0) = attempted (stdout s) ++ [(sourceFile, destinationFile)]) as H0.
  { unfold s0. cbn. rewrite attempted_app. by destruct (move env). }
  pose proof (sys_only_copyFile sourceFile destinationFile env s0) as Hcopy.
  apply prog_fields in Hcopy. destruct Hcopy as (_ & _ & _ & _ & Hout).
  destruct (copyFile sourceFile destinationFile env s0) as [[e|] s1]; cbn [fst snd] in *.
  - cbn. rewrite Hout, attempted_app. cbn. by rewrite app_nil_r.
  - destruct (move env); [|by rewrite Hout].
    pose proof (sys_only_os_Remove sourceFile env s1) as Hrm.
    apply prog_fields in Hrm. destruct Hrm as (_ & _ & _ & _ & Hout').
    destruct (os_Remove sourceFile env s1) as [[e|] s2]; cbn [fst snd] in *.
    + cbn. rewrite Hout', Hout, attempted_app. cbn. by rewrite app_nil_r.
    + by rewrite Hout', Hout.
Qed.

(** C9: when [getFileTime] fails, the job prints the error, takes the
    clock as the timestamp, builds the renamed destination from it and goes
    on with the materialization; in a real run (not simulated, source and
    destination paths different) the copy is attempted. *)
Theorem job_timestamp_unavailable dest sourceFile env s e :
  rename env = true →
  snd (fst (fst (getFileTime sourceFile env s))) = Some e →
  let s1 := add_stdout (LogPrintln e) (snd (getFileTime sourceFile env s)) in
  let name := remove_colons (Format (clock env) timeFormat ++ " "
                               ++ filepath.Base sourceFile)%string in
  let destinationFile := filepath.Clean (filepath.Join dest name) in
  processHashesJob dest sourceFile env s = materialize sourceFile destinationFile env s1 ∧
  (simulate env = false → sourceFile ≠ destinationFile →
   attempted (stdout (snd (processHashesJob dest sourceFile env s))) =
   attempted (stdout s1) ++ [(sourceFile, destinationFile)]).
Proof.
  intros Hren Herr. cbn zeta.
  assert (processHashesJob dest sourceFile env s =
          materialize sourceFile
            (filepath.Clean (filepath.Join dest
               (remove_colons (Format (clock env) timeFormat ++ " "
                                 ++ filepath.Base sourceFile)%string)))
            env (add_stdout (LogPrintln e) (snd (getFileTime sourceFile env s)))) as Hjob.
  { rewrite processHashesJob_run, destFileName_run, Hren.
    pose proof (getFileTime_error sourceFile env s) as Hb.
    destruct (getFileTime sourceFile env s) as [[[fTime err] noRename] s1].
    cbn [fst snd] in *. subst err.
    destruct (Hb fTime e noRename eq_refl) as [_ ->]. reflexivity. }
  split; [exact Hjob|].
  intros Hsim Hne. rewrite Hjob. by apply materialize_real_attempted.
Qed.

Lemma job_timestamp_unavailable_witness :
  processHashesJob "/out" "/in/a.jpg" env_locked (start fs_one) =
  materialize "/in/a.jpg" "/out/20210615T120000 a.jpg" env_locked
    (add_stdout (LogPrintln (SysError EACCES (OpOpen "/in/a.jpg")))
       (add_trace (OpOpen "/in/a.jpg") (start fs_one))) ∧
  attempted (stdout (snd (processHashesJob "/out" "/in/a.jpg" env_locked (start fs_one)))) =
  [("/in/a.jpg", "/out/20210615T120000 a.jpg")].
Proof.
  destruct (job_timestamp_unavailable "/out" "/in/a.jpg" env_locked (start fs_one)
              (SysError EACCES (OpOpen "/in/a.jpg")) eq_refl eq_refl) as [Hjob Hcopy].
  split; [exact Hjob|].
  apply Hcopy; [reflexivity | vm_compute; discriminate].
Defined.

(** In that world the file is placed all the same: the hard link needs no
    read permission. *)
Example job_timestamp_unavailable_links :
  let s' := snd (processHashesJob "/out" "/in/a.jpg" env_locked (start fs_one)) in
  names (fs s') !! "/out/20210615T120000 a.jpg" = Some 1%nat ∧ copyErrors s' = 0.
Proof. vm_compute. auto. Qed.

Lemma sys_only_exif_Decode f : sys_only (exif_Decode f).
Proof. unfold exif_Decode. sys_only_syscall. Qed.

Lemma sys_only_times_Stat p : sys_only (times_Stat p).
Proof. unfold times_Stat. sys_only_syscall. Qed.

Lemma sys_only_File_Stat f : sys_only (File_Stat f).
Proof. unfold File_Stat. sys_only_syscall. Qed.

#[export] Hint Resolve sys_only_exif_Decode sys_only_times_Stat sys_only_File_Stat : sys_only.

Lemma sys_only_getFileTime filePath : sys_only (getFileTime filePath).
Proof. unfold getFileTime. sys_only_auto. Qed.

(** ** The system calls a computation makes *)

Lemma calls_ret {A} P (a : A) : calls P (ret a).
Proof. intros env s. exists []. by rewrite app_nil_r. Qed.

Lemma calls_bind {A B} P (m : M A) (k : A → M B) :
  calls P m → (∀ a, calls P (k a)) → calls P (bind m k).
Proof.
  intros Hm Hk env s. rewrite bind_run.
  destruct (Hm env s) as (tr1 & H1 & HP1).
  destruct (Hk (fst (m env s)) env (snd (m env s))) as (tr2 & H2 & HP2).
  exists (tr1 ++ tr2). rewrite H2, H1, app_assoc. split; [done | by apply Forall_app].
Qed.

Ltac calls_syscall o :=
  let env := fresh "env" in
  let s := fresh "s" in
  intros env s; exists [o]; split; [|by repeat constructor];
  unfold bind, syscall, get, ask, ret, modify; simpl;
  repeat case_match; simplify_eq; reflexivity.

Section Calls.
Variable P : Op → Prop.

Lemma calls_os_Stat p : P (OpStat p) → calls P (os_Stat p).
Proof. intros HP. unfold os_Stat. calls_syscall (OpStat p). Qed.

Lemma calls_os_Open p : P (OpOpen p) → calls P (os_Open p).
Proof. intros HP. unfold os_Open. calls_syscall (OpOpen p). Qed.

Lemma calls_os_Link src dst : P (OpLink src dst) → calls P (os_Link src dst).
Proof. intros HP. unfold os_Link. calls_syscall (OpLink src dst). Qed.

Lemma calls_os_Create dst : P (OpCreate dst) → calls P (os_Create dst).
Proof. intros HP. unfold os_Create. calls_syscall (OpCreate dst). Qed.

Lemma calls_io_Copy out inp :
  P (OpCopy (fd_ino out) (fd_ino inp)) → calls P (io_Copy out inp).
Proof. intros HP. unfold io_Copy. calls_syscall (OpCopy (fd_ino out) (fd_ino inp)). Qed.

Lemma calls_File_Sync f : P (OpSync (fd_ino f)) → calls P (File_Sync f).
Proof. intros HP. unfold File_Sync. calls_syscall (OpSync (fd_ino f)). Qed.

Lemma calls_File_Close f : P (OpClose (fd_ino f)) → calls P (File_Close f).
Proof. intros HP. unfold File_Close. calls_syscall (OpClose (fd_ino f)). Qed.
End Calls.

Ltac calls_auto :=
  repeat first
    [ apply calls_ret
    | apply calls_os_Stat | apply calls_os_Open | apply calls_os_Link
    | apply calls_os_Create | apply calls_io_Copy | apply calls_File_Sync
    | apply calls_File_Close
    | apply calls_bind; [|intros ?]
    | match goal with
      | |- calls _ (match ?x with _ => _ end) => destruct x
      | |- calls _ (if ?b then _ else _) => destruct b
      | |- calls _ (let _ := _ in _) => hnf
      | |- no_removal _ => by intros ?
      end ].

Lemma copyFileContents_no_removal src dst : calls no_removal (copyFileContents src dst).
Proof. unfold copyFileContents. calls_auto. Qed.

Lemma copyFile_no_removal src dst : calls no_removal (copyFile src dst).
Proof.
  unfold copyFile. calls_auto; try apply copyFileContents_no_removal.
Qed.

(** ** Move mode *)

Lemma os_Remove_run p env s :
  os_Remove p env s =
  match faults env (OpRemove p) with
  | Some e => (Some (SysError e (OpRemove p)), add_trace (OpRemove p) s)
  | None =>
      match resolve (fs s) p with
      | None => (Some (SysError ENOENT (OpRemove p)), add_trace (OpRemove p) s)
      | Some (i, nd) =>
          (None, set_fs (mkFS (delete p (names (fs s)))
                              (match i_nlink nd with
                               | S (S n) => <[i := set_nlink (S n) nd]> (inodes (fs s))
                               | _ => delete i (inodes (fs s))
                               end))
                   (add_trace (OpRemove p) s))
      end
  end.
Proof.
  unfold os_Remove, bind, syscall, get, ret, modify. cbn.
  destruct (faults env (OpRemove p)); [reflexivity|].
  destruct (resolve (fs s) p) as [[i nd]|]; reflexivity.
Qed.

(** C7: a real job in move mode. When [copyFile] succeeds, the removal of
    the source is the next and last system call, and the copy-error counter
    stays; a removal that succeeds takes the source path out of the
    directory, a removal that fails adds one to the remove-error counter and
    leaves the file system as [copyFile] left it, destination included.
    When [copyFile] fails, the copy-error counter alone gets one more, no
    removal is among the calls made, and the file system is as [copyFile]
    left it. *)
Theorem move_outcomes src dst env s :
  move env = true → simulate env = false → src ≠ dst →
  let placed := copyFile src dst env (add_stdout (LogMoving src dst) s) in
  let s1 := snd placed in
  let s' := snd (materialize src dst env s) in
  match fst placed with
  | None =>
      trace s' = trace s1 ++ [OpRemove src] ∧ copyErrors s' = copyErrors s ∧
      match fst (os_Remove src env s1) with
      | None =>
          names (fs s') = delete src (names (fs s1)) ∧ names (fs s') !! src = None ∧
          removeErrors s' = removeErrors s
      | Some _ => fs s' = fs s1 ∧ removeErrors s' = wrap64 (removeErrors s + 1)
      end
  | Some _ =>
      fs s' = fs s1 ∧ copyErrors s' = wrap64 (copyErrors s + 1) ∧
      removeErrors s' = removeErrors s ∧
      ∃ tr, trace s' = trace s ++ tr ∧ Forall no_removal tr
  end.
Proof.
  intros Hmove Hsim Hne. cbn zeta.
  rewrite (materialize_real _ _ _ _ Hsim Hne). rewrite Hmove. cbn [snd].
  set (s0 := add_stdout (LogMoving src dst) s).
  pose proof (sys_only_copyFile src dst env s0) as Hprog.
  apply prog_fields in Hprog. destruct Hprog as (_ & _ & Hce & Hre & _).
  destruct (copyFile_no_removal src dst env s0) as (tr & Htr & Hno).
  destruct (copyFile src dst env s0) as [[e|] s1]; cbn [fst snd] in *.
  - cbn in *. repeat split; [done|]. exists tr. by rewrite Htr.
  - cbn in Hce, Hre. rewrite os_Remove_run.
    destruct (faults env (OpRemove src)) as [e|]; cbn; [by rewrite ?Hce, ?Hre|].
    destruct (resolve (fs s1) src) as [[i nd]|]; cbn; [|by rewrite ?Hce, ?Hre].
    rewrite ?Hce, ?Hre. repeat split. apply lookup_delete_eq.
Qed.

(** The source is linked to the destination and then cannot be removed. *)
Lemma move_outcomes_witness :
  let env := mkEnv false true false noon sticky no_exif in
  let s1 := snd (copyFile "/in/a.jpg" "/out/a.jpg" env
                   (add_stdout (LogMoving "/in/a.jpg" "/out/a.jpg") (start fs_one))) in
  let s' := snd (materialize "/in/a.jpg" "/out/a.jpg" env (start fs_one)) in
  trace s' = trace s1 ++ [OpRemove "/in/a.jpg"] ∧ copyErrors s' = 0 ∧
  fs s' = fs s1 ∧ removeErrors s' = wrap64 (0 + 1).
Proof.
  assert ("/in/a.jpg" ≠ "/out/a.jpg") as Hne by discriminate.
  exact (move_outcomes "/in/a.jpg" "/out/a.jpg" (mkEnv false true false noon sticky no_exif)
           (start fs_one) eq_refl eq_refl Hne).
Defined.

Example move_outcomes_links :
  let env := mkEnv false true false noon sticky no_exif in
  let s' := snd (materialize "/in/a.jpg" "/out/a.jpg" env (start fs_one)) in
  names (fs s') !! "/out/a.jpg" = Some 1%nat ∧ names (fs s') !! "/in/a.jpg" = Some 1%nat ∧
  removeErrors s' = 1.
Proof. vm_compute. auto. Qed.

(** ** [copyFile] on one and the same file *)

Lemma os_Stat_run p env s :
  os_Stat p env s =
  (match faults env (OpStat p) with
   | Some e => Err (SysError e (OpStat p))
   | None =>
       match resolve (fs s) p with
       | Some (i, nd) => Ok (mkFileInfo (filepath.Base p) (i_mode nd) i (i_mtime nd))
       | None => Err (SysError ENOENT (OpStat p))
       end
   end, add_trace (OpStat p) s).
Proof.
  unfold os_Stat, bind, syscall, get, ret. cbn.
  destruct (faults env (OpStat p)); [reflexivity|].
  destruct (resolve (fs s) p) as [[i nd]|]; reflexivity.
Qed.

(** What [os.Stat] reports is what the inode says. *)
Lemma os_Stat_Ok p env s fi :
  fst (os_Stat p env s) = Ok fi →
  ∃ nd, inodes (fs s) !! fi_ino fi = Some nd ∧ fi_mode fi = i_mode nd.
Proof.
  rewrite os_Stat_run. cbn. destruct (faults env (OpStat p)); [discriminate|].
  unfold resolve. destruct (names (fs s) !! p) as [i|]; [|discriminate].
  destruct (inodes (fs s) !! i) as [nd|] eqn:Hi; [|discriminate].
  intros [= <-]. by exists nd.
Qed.

(** C6, as amended: when [src] and [dst] both exist, are one file for
    [os.SameFile] and that file is regular, [copyFile] returns [nil] after
    its two [os.Stat] calls, which is all it does: the file system (content
    and link counts included) is untouched. *)
Theorem copyFile_same_file src dst env s sfi dfi :
  fst (os_Stat src env s) = Ok sfi →
  fst (os_Stat dst env s) = Ok dfi →
  SameFile sfi dfi = true →
  IsRegular (fi_mode sfi) = true →
  copyFile src dst env s = (None, add_traces [OpStat src; OpStat dst] s).
Proof.
  intros Hs Hd Hsame Hreg.
  destruct (os_Stat_Ok _ _ _ _ Hs) as (nd & Hnd & Hmode).
  destruct (os_Stat_Ok _ _ _ _ Hd) as (nd' & Hnd' & Hmode').
  apply Nat.eqb_eq in Hsame. rewrite <- Hsame, Hnd in Hnd'. injection Hnd' as <-.
  unfold copyFile. rewrite bind_run, Hs. cbn [negb]. rewrite Hreg. cbn [negb].
  rewrite bind_run.
  rewrite (observer_result _ env s _ (observer_os_Stat dst)), Hd
    by (by rewrite os_Stat_run).
  rewrite Hmode', <- Hmode, Hreg. cbn [negb].
  unfold SameFile. rewrite Hsame, Nat.eqb_refl.
  rewrite !os_Stat_run. unfold add_traces, add_trace. cbn.
  by rewrite <- app_assoc.
Qed.

Lemma copyFile_same_file_witness :
  copyFile "/in/a.jpg" "/out/b.jpg" (env_of false false false) (start fs_linked) =
  (None, add_traces [OpStat "/in/a.jpg"; OpStat "/out/b.jpg"] (start fs_linked)).
Proof.
  apply (copyFile_same_file "/in/a.jpg" "/out/b.jpg" (env_of false false false)
           (start fs_linked)
           (mkFileInfo "a.jpg" ModeRegular 1 earlier) (mkFileInfo "b.jpg" ModeRegular 1 earlier));
    vm_compute; reflexivity.
Defined.

(** C6, as stated, fails when the one file is not a regular file:
    [copyFile] tests the mode of the source before it compares the two
    files, and returns the non-regular-source error. *)
Lemma copyFile_same_socket :
  ¬ (∀ src dst env s sfi dfi,
       fst (os_Stat src env s) = Ok sfi →
       fst (os_Stat dst env s) = Ok dfi →
       SameFile sfi dfi = true →
       fst (copyFile src dst env s) = None).
Proof.
  intros H.
  specialize (H "/in/s.jpg" "/out/s.jpg" (env_of false false false) (start fs_socket)
                (mkFileInfo "s.jpg" ModeIrregular 1 earlier)
                (mkFileInfo "s.jpg" ModeIrregular 1 earlier)).
  assert (fst (copyFile "/in/s.jpg" "/out/s.jpg" (env_of false false false) (start fs_socket))
          = Some (ErrNonRegularSource "s.jpg")) as Hrun by (vm_compute; reflexivity).
  rewrite H in Hrun; [discriminate | vm_compute; reflexivity ..].
Qed.

(** ** The hashing phase *)

Lemma ioutil_ReadFile_run fPath env s :
  ioutil_ReadFile fPath env s = (readOf env (fs s) fPath, add_trace (OpReadFile fPath) s).
Proof.
  unfold readOf, ioutil_ReadFile, bind, syscall, get, ret. cbn.
  destruct (faults env (OpReadFile fPath)); [reflexivity|].
  destruct (resolve (fs s) fPath) as [[i nd]|]; [|reflexivity].
  destruct (IsDir (i_mode nd)); reflexivity.
Qed.

(** One job: the read, the line for a read error, and then, whatever the
    read gave, the duplicate count or the new entry. *)
Lemma processFileHash_run path fName env s :
  processFileHash path fName env s =
  let fPath := filepath.Join path fName in
  let s1 := add_trace (OpReadFile fPath) s in
  let s2 := match snd (readOf env (fs s) fPath) with
            | Some e => add_stdout (LogReadError fPath e) s1
            | None => s1
            end in
  (tt, match hashes s !! digestOf env (fs s) fPath with
       | Some current =>
           add_stdout (LogDuplicate (wrap64 (collisions s + 1)) fPath current)
                      (set_collisions (wrap64 (collisions s + 1)) s2)
       | None => set_hashes (<[digestOf env (fs s) fPath := fPath]> (hashes s)) s2
       end).
Proof.
  unfold processFileHash, digestOf, strHash. rewrite bind_run, ioutil_ReadFile_run.
  cbn [fst snd]. destruct (readOf env (fs s) (filepath.Join path fName)) as [data [e|]];
    cbn [fst snd]; unfold bind, Print, modify, get, ret, AddInt64_collisions; cbn;
    destruct (hashes s !! _); reflexivity.
Qed.

Lemma processFileHash_fs path fName env s :
  fs (snd (processFileHash path fName env s)) = fs s.
Proof.
  rewrite processFileHash_run. cbn.
  destruct (hashes s !! _), (snd (readOf env (fs s) _)); reflexivity.
Qed.

Lemma incrementsFor_app env f d l1 l2 :
  incrementsFor env f d (l1 ++ l2) = (incrementsFor env f d l1 + incrementsFor env f d l2)%nat.
Proof.
  induction l1 as [|[] l1 IH]; cbn; rewrite ?IH; lia.
Qed.

(** The effect of one job on the entry and on the count of a digest. *)
Lemma processFileHash_digest path fName env s d :
  let fPath := filepath.Join path fName in
  let s' := snd (processFileHash path fName env s) in
  hashes s' !! d =
    match hashes s !! d with
    | Some p => Some p
    | None => if decide (digestOf env (fs s) fPath = d) then Some fPath else None
    end ∧
  incrementsFor env (fs s) d (stdout s') =
    (incrementsFor env (fs s) d (stdout s) +
     match hashes s !! d with
     | Some _ => if decide (digestOf env (fs s) fPath = d) then 1 else 0
     | None => 0
     end)%nat.
Proof.
  cbn zeta. rewrite processFileHash_run. cbn [snd].
  set (fPath := filepath.Join path fName).
  set (s2 := match snd (readOf env (fs s) fPath) with Some e => _ | None => _ end).
  assert (hashes s2 = hashes s) as Hh by (unfold s2; by destruct (snd _)).
  assert (incrementsFor env (fs s) d (stdout s2) = incrementsFor env (fs s) d (stdout s)) as Hi.
  { unfold s2. destruct (snd _); [|done]. cbn. rewrite incrementsFor_app. cbn. lia. }
  destruct (decide (digestOf env (fs s) fPath = d)) as [Hd|Hd].
  - rewrite Hd. destruct (hashes s !! d) as [p|] eqn:Hp; cbn.
    + rewrite Hh, Hp, incrementsFor_app, Hi. cbn.
      rewrite Hd, String.eqb_refl. split; [done | lia].
    + rewrite lookup_insert_eq, Hi. split; [done | lia].
  - destruct (hashes s !! digestOf env (fs s) fPath) as [p|] eqn:Hp; cbn.
    + rewrite Hh, incrementsFor_app, Hi. cbn.
      apply String.eqb_neq in Hd. rewrite Hd.
      destruct (hashes s !! d); split; try done; lia.
    + rewrite lookup_insert_ne by done. rewrite Hi.
      destruct (hashes s !! d); split; try done; lia.
Qed.

Lemma hashJobs_cons job order env s :
  hashJobs (job :: order) env s =
  hashJobs order env (snd (processFileHash (fst job) (snd job) env s)).
Proof. unfold hashJobs. cbn [forEach]. by rewrite bind_run. Qed.

Lemma hashJobs_fs order env s : fs (snd (hashJobs order env s)) = fs s.
Proof.
  revert s. induction order as [|job order IH]; intros s; [reflexivity|].
  by rewrite hashJobs_cons, IH, processFileHash_fs.
Qed.

(** The phase, for one digest: the entry goes to the first job of that
    digest to take the mutex, if the digest has none yet, and every other
    job of that digest adds one to the count. *)
Lemma hashJobs_digest env d order s :
  let s' := snd (hashJobs order env s) in
  hashes s' !! d =
    match hashes s !! d with
    | Some p => Some p
    | None => head (jobPath <$> classOf env (fs s) d order)
    end ∧
  incrementsFor env (fs s) d (stdout s') =
    (incrementsFor env (fs s) d (stdout s) +
     match hashes s !! d with
     | Some _ => length (classOf env (fs s) d order)
     | None => length (classOf env (fs s) d order) - 1
     end)%nat.
Proof.
  cbn zeta. revert s. induction order as [|[path fName] order IH]; intros s.
  - cbn. destruct (hashes s !! d); split; try done; lia.
  - rewrite hashJobs_cons. cbn [fst snd].
    destruct (IH (snd (processFileHash path fName env s))) as [IHh IHc].
    rewrite processFileHash_fs in IHh, IHc.
    destruct (processFileHash_digest path fName env s d) as [Hh Hc].
    rewrite IHh, IHc, Hh, Hc. clear IHh IHc Hh Hc IH.
    unfold classOf. rewrite filter_cons.
    change (jobPath (path, fName)) with (filepath.Join path fName).
    destruct (decide (digestOf env (fs s) (filepath.Join path fName) = d)) as [Hd|Hd];
      destruct (hashes s !! d); cbn; split; try done; lia.
Qed.

Lemma duplicateLines_app l1 l2 :
  duplicateLines (l1 ++ l2) = (duplicateLines l1 + duplicateLines l2)%nat.
Proof. induction l1 as [|[] l1 IH]; cbn; rewrite ?IH; lia. Qed.

(** Every duplicate line of the phase is one [atomic.AddInt64] on the
    collision counter, and there is no other. *)
Lemma hashJobs_collisions order env s :
  let s' := snd (hashJobs order env s) in
  ∃ k, duplicateLines (stdout s') = (duplicateLines (stdout s) + k)%nat ∧
       collisions s' = Nat.iter k (fun c => wrap64 (c + 1)) (collisions s).
Proof.
  cbn zeta. revert s. induction order as [|[path fName] order IH]; intros s.
  - exists 0%nat. cbn. split; [lia | done].
  - rewrite hashJobs_cons. cbn [fst snd].
    destruct (IH (snd (processFileHash path fName env s))) as (k & Hk & Hc).
    rewrite Hk, Hc, processFileHash_run. cbn [snd]. clear.
    set (fPath := filepath.Join path fName).
    set (s2 := match snd (readOf env (fs s) fPath) with Some e => _ | None => _ end).
    assert (duplicateLines (stdout s2) = duplicateLines (stdout s) ∧
            collisions s2 = collisions s) as [Hd2 Hc2].
    { unfold s2. destruct (snd _); [|done]. cbn. rewrite duplicateLines_app. cbn.
      split; [lia | done]. }
    destruct (hashes s !! digestOf env (fs s) fPath).
    + exists (S k). rewrite Nat.iter_succ_r.
      cbn [stdout collisions add_stdout set_collisions].
      rewrite duplicateLines_app, Hd2. cbn [duplicateLines]. split; [lia | done].
    + exists k. cbn [stdout collisions set_hashes]. by rewrite Hd2, Hc2.
Qed.

Lemma map_to_list_one_entry (m : gmap string string) d p :
  m !! d = Some p → filter (fun kv => kv.1 = d) (map_to_list m) = [(d, p)].
Proof.
  intros Hd.
  assert (∀ l : list (string * string), NoDup l.*1 → (d, p) ∈ l →
            filter (fun kv => kv.1 = d) l = [(d, p)]) as Hl.
  { induction l as [|[k v] l IH]; intros Hnd Hin; [by apply elem_of_nil in Hin|].
    cbn in Hnd. apply NoDup_cons in Hnd as [Hk Hnd].
    rewrite filter_cons. cbn [fst].
    apply elem_of_cons in Hin as [Heq|Hin].
    - injection Heq as <- <-. rewrite decide_True by done. f_equal.
      destruct (filter (fun kv => kv.1 = d) l) as [|[k' v'] rest] eqn:Hf; [done|].
      assert ((k', v') ∈ filter (fun kv : string * string => kv.1 = d) l) as Hin'
        by (rewrite Hf; by left).
      apply list_elem_of_filter in Hin' as [Hk' Hin']. cbn in Hk'. subst k'.
      exfalso. apply Hk. apply list_elem_of_fmap. by exists (d, v').
    - rewrite decide_False; [by apply IH|].
      intros ->. apply Hk. apply list_elem_of_fmap. by exists (d, p). }
  apply Hl; [apply NoDup_fst_map_to_list | by apply elem_of_map_to_list].
Qed.

Lemma classOf_identical env f order B :
  (∀ job, job ∈ order → readOf env f (jobPath job) ≠ (B, None) →
          digestOf env f (jobPath job) ≠ strHash B) →
  classOf env f (strHash B) order =
  filter (fun job => readOf env f (jobPath job) = (B, None)) order.
Proof.
  unfold classOf. induction order as [|job order IH]; intros H; [reflexivity|].
  rewrite !filter_cons, IH by (intros j Hj; apply H; by right).
  destruct (decide (readOf env f (jobPath job) = (B, None))) as [Hr|Hr].
  - rewrite decide_True; [done|]. unfold digestOf. by rewrite Hr.
  - rewrite decide_False; [done|]. apply H; [by left | done].
Qed.



Example first_seen_wins_b :
  let s' := snd (hashJobs [("/b", "b.jpg"); ("/a", "c.jpg"); ("/a", "a.jpg")]
                   (env_of false false false) (start fs_three)) in
  hashes s' !! strHash (list_byte_of_string "xx") = Some "/b/b.jpg" ∧ collisions s' = 1 ∧
  stdout s' = [LogDuplicate 1 "/a/a.jpg" "/b/b.jpg"].
Proof. vm_compute. auto. Qed.

(** ** [populateHash] *)

Lemma observer_enumerate folders : observer (enumerate folders).
Proof.
  induction folders as [|item rest IH]; cbn [enumerate]; [auto with observer|].
  apply observer_bind; [auto with observer|]. intros [files err].
  apply observer_bind; [destruct err; auto with observer|]. intros _.
  apply observer_bind; [exact IH|]. intros jobs. auto with observer.
Qed.

(** [populateHash] empties the index, lists the folders, which changes
    neither the index nor a file, runs the hashing jobs and prints the two
    totals. *)
Lemma populateHash_run sched folders env s :
  let listed := enumerate folders env (set_hashes ∅ s) in
  let s2 := snd (hashJobs (sched (fst listed)) env (snd listed)) in
  hashes (snd listed) = ∅ ∧ fs (snd listed) = fs s ∧
  populateHash sched folders env s =
  (tt, add_stdout (LogTotalDuplicates (collisions s2))
         (add_stdout (LogTotalImages (size (hashes s2))) s2)).
Proof.
  cbn zeta.
  destruct (observer_frame (enumerate folders) env (set_hashes ∅ s)
              (observer_enumerate folders)) as (Hfs & Hh & _).
  split; [exact Hh|]. split; [exact Hfs|].
  unfold populateHash. rewrite bind_run. cbn [modify fst snd].
  rewrite bind_run, bind_run. cbn [fst snd].
  rewrite bind_run. cbn [get fst snd].
  rewrite bind_run. reflexivity.
Qed.

(** ** A file that cannot be read *)

(** After a read error [processFileHash] goes on: the file is filed under
    the digest of the data that came with the error. *)
Lemma processFileHash_read_error path fName env s data e :
  readOf env (fs s) (filepath.Join path fName) = (data, Some e) →
  let s' := snd (processFileHash path fName env s) in
  match hashes s !! strHash data with
  | None => hashes s' = <[strHash data := filepath.Join path fName]> (hashes s)
  | Some current =>
      collisions s' = wrap64 (collisions s + 1) ∧
      stdout s' = stdout s ++ [LogReadError (filepath.Join path fName) e;
                               LogDuplicate (wrap64 (collisions s + 1))
                                 (filepath.Join path fName) current]
  end.
Proof.
  intros Hread. cbn zeta. rewrite processFileHash_run. cbn [snd].
  unfold digestOf. rewrite Hread. cbn [fst snd].
  destruct (hashes s !! strHash data); cbn; [|done].
  by rewrite <- app_assoc.
Qed.

(** C1 fails on the code. Two photos of different content, neither of
    which can be read: the first is recorded in the index, under the digest
    of the empty byte sequence, and the second is counted as its
    duplicate. *)
Theorem unreadable_files_are_indexed :
  let e p := SysError EACCES (OpReadFile p) in
  let s' := snd (hashJobs [("/in", "a.jpg"); ("/in", "b.jpg")] env_locked (start fs_two)) in
  readOf env_locked fs_two "/in/a.jpg" = ([], Some (e "/in/a.jpg")) ∧
  readOf env_locked fs_two "/in/b.jpg" = ([], Some (e "/in/b.jpg")) ∧
  map_to_list (hashes s') = [(strHash [], "/in/a.jpg")] ∧
  collisions s' = 1 ∧
  stdout s' = [LogReadError "/in/a.jpg" (e "/in/a.jpg");
               LogReadError "/in/b.jpg" (e "/in/b.jpg");
               LogDuplicate 1 "/in/b.jpg" "/in/a.jpg"].
Proof. vm_compute. repeat split. Qed.

(** ** A simulated run *)

Lemma simulate_blind_ret {A} (a : A) : simulate_blind (ret a).
Proof. by intros b env s. Qed.

Lemma simulate_blind_bind {A B} (m : M A) (k : A → M B) :
  simulate_blind m → (∀ a, simulate_blind (k a)) → simulate_blind (bind m k).
Proof. intros Hm Hk b env s. rewrite !bind_run. by rewrite Hm, Hk. Qed.

Ltac simulate_blind_syscall :=
  let b := fresh "b" in
  let env := fresh "env" in
  let s := fresh "s" in
  intros b env s; rewrite !bind_run; cbn; repeat case_match; reflexivity.

Lemma simulate_blind_os_Open p : simulate_blind (os_Open p).
Proof. unfold os_Open. simulate_blind_syscall. Qed.

Lemma simulate_blind_exif_Decode f : simulate_blind (exif_Decode f).
Proof. unfold exif_Decode. simulate_blind_syscall. Qed.

Lemma simulate_blind_times_Stat p : simulate_blind (times_Stat p).
Proof. unfold times_Stat. simulate_blind_syscall. Qed.

Lemma simulate_blind_File_Stat f : simulate_blind (File_Stat f).
Proof. unfold File_Stat. simulate_blind_syscall. Qed.

Lemma simulate_blind_getFileTime filePath : simulate_blind (getFileTime filePath).
Proof.
  unfold getFileTime.
  repeat first
    [ apply simulate_blind_ret | apply simulate_blind_os_Open
    | apply simulate_blind_exif_Decode | apply simulate_blind_times_Stat
    | apply simulate_blind_File_Stat
    | apply simulate_blind_bind; [|intros ?]
    | match goal with
      | |- simulate_blind (match ?x with _ => _ end) => destruct x
      | |- simulate_blind (if ?b then _ else _) => destruct b
      | |- simulate_blind (let _ := _ in _) => hnf
      end ].
Qed.

Lemma destFileName_simulate sourceFile : simulate_blind (destFileName sourceFile).
Proof.
  intros b env s. rewrite !destFileName_run, !simulate_blind_getFileTime. reflexivity.
Qed.

(** The destination a job computes is a function of the file system. *)
Lemma destination_on dest sourceFile env s :
  filepath.Clean (filepath.Join dest (fst (destFileName sourceFile env s))) =
  destinationOn env dest (fs s) sourceFile.
Proof.
  unfold destinationOn. f_equal. f_equal.
  by apply (observer_result _ env _ _ (observer_destFileName sourceFile)).
Qed.

Lemma destinationOn_simulate b env dest f sourceFile :
  destinationOn (with_simulate b env) dest f sourceFile = destinationOn env dest f sourceFile.
Proof. unfold destinationOn. by rewrite destFileName_simulate. Qed.

Lemma mappings_simulate b env dest f order :
  mappings (with_simulate b env) dest f order = mappings env dest f order.
Proof.
  unfold mappings, mapping. induction order as [|v order IH]; [reflexivity|].
  cbn. by rewrite destinationOn_simulate, IH.
Qed.

(** What the computation of the name prints is no mapping. *)
Lemma destFileName_stdout sourceFile env s :
  ∃ out, stdout (snd (destFileName sourceFile env s)) = stdout s ++ out ∧
         reported out = [] ∧ attempted out = [].
Proof.
  rewrite destFileName_run.
  destruct (rename env); [|exists []; by rewrite app_nil_r].
  pose proof (sys_only_getFileTime sourceFile env s) as Hprog.
  apply prog_fields in Hprog. destruct Hprog as (_ & _ & _ & _ & Hout).
  destruct (getFileTime sourceFile env s) as [[[fTime err] noRename] s1].
  cbn [fst snd] in *. destruct err as [e|]; cbn.
  - exists [LogPrintln e]. by rewrite Hout.
  - exists []. by rewrite Hout, app_nil_r.
Qed.

(** One simulated job. *)
Lemma job_simulated dest sourceFile env s :
  simulate env = true →
  let s' := snd (processHashesJob dest sourceFile env s) in
  (fs s' = fs s ∧ hashes s' = hashes s ∧ collisions s' = collisions s ∧
   copyErrors s' = copyErrors s ∧ removeErrors s' = removeErrors s ∧
   ∃ tr, trace s' = trace s ++ tr ∧ Forall (fun o => mutating o = false) tr) ∧
  reported (stdout s') =
    reported (stdout s) ++ option_list (mapping env dest (fs s) sourceFile).
Proof.
  intros Hsim. cbn zeta. rewrite processHashesJob_run, destination_on.
  unfold mapping.
  destruct (destFileName_stdout sourceFile env s) as (out & Hout & Hrep & _).
  destruct (observer_frame (destFileName sourceFile) env s (observer_destFileName _))
    as (Hfs & Hh & Hc & Hce & Hre & Htr).
  destruct (String.eqb_spec sourceFile (destinationOn env dest (fs s) sourceFile)) as [Heq|Hne].
  - rewrite <- Heq, materialize_skip.
    cbn [snd fs hashes collisions copyErrors removeErrors trace stdout add_stdout].
    rewrite Hout, !reported_app, Hrep, Hfs, Hh, Hc, Hce, Hre.
    cbn [reported app option_list]. by rewrite !app_nil_r.
  - rewrite (materialize_simulate _ _ _ _ Hsim Hne).
    cbn [snd fs hashes collisions copyErrors removeErrors trace stdout add_stdout].
    rewrite Hout, !reported_app, Hrep, Hfs, Hh, Hc, Hce, Hre.
    cbn [reported app option_list]. by rewrite app_nil_r.
Qed.

Lemma processHashesSeq_cons dest sourceFile order env s :
  processHashesSeq dest (sourceFile :: order) env s =
  processHashesSeq dest order env (snd (processHashesJob dest sourceFile env s)).
Proof. unfold processHashesSeq. cbn [forEach]. by rewrite bind_run. Qed.

(** A simulated run. *)
Lemma processHashesSeq_simulated dest order env s :
  simulate env = true →
  let s' := snd (processHashesSeq dest order env s) in
  (fs s' = fs s ∧ hashes s' = hashes s ∧ collisions s' = collisions s ∧
   copyErrors s' = copyErrors s ∧ removeErrors s' = removeErrors s ∧
   ∃ tr, trace s' = trace s ++ tr ∧ Forall (fun o => mutating o = false) tr) ∧
  reported (stdout s') = reported (stdout s) ++ mappings env dest (fs s) order.
Proof.
  intros Hsim. cbn zeta. revert s. induction order as [|v order IH]; intros s.
  - cbn. rewrite app_nil_r. repeat split. exists []. by rewrite app_nil_r.
  - rewrite processHashesSeq_cons.
    destruct (job_simulated dest v env s Hsim) as ((Hfs & Hh & Hc & Hce & Hre & tr1 & Htr1 & Hm1) & Hrep).
    destruct (IH (snd (processHashesJob dest v env s)))
      as ((Hfs' & Hh' & Hc' & Hce' & Hre' & tr2 & Htr2 & Hm2) & Hrep').
    rewrite Hfs', Hh', Hc', Hce', Hre', Hrep', Htr2, Hfs, Hh, Hc, Hce, Hre, Hrep, Htr1.
    repeat split.
    + exists (tr1 ++ tr2). rewrite app_assoc. split; [done | by apply Forall_app].
    + unfold mappings. cbn [omap list_omap]. rewrite <- app_assoc. f_equal.
      by destruct (mapping env dest (fs s) v).
Qed.

(** One real job announces the copy of its mapping, if it is not skipped. *)
Lemma job_real_attempted dest sourceFile env s :
  simulate env = false →
  attempted (stdout (snd (processHashesJob dest sourceFile env s))) =
  attempted (stdout s) ++ option_list (mapping env dest (fs s) sourceFile).
Proof.
  intros Hsim. rewrite processHashesJob_run, destination_on. unfold mapping.
  destruct (destFileName_stdout sourceFile env s) as (out & Hout & _ & Hatt).
  destruct (String.eqb_spec sourceFile (destinationOn env dest (fs s) sourceFile)) as [Heq|Hne].
  - rewrite <- Heq, materialize_skip.
    cbn [snd stdout add_stdout].
    rewrite Hout, !attempted_app, Hatt. cbn [attempted app option_list].
    by rewrite !app_nil_r.
  - rewrite (materialize_real_attempted _ _ _ _ Hsim Hne).
    rewrite Hout, !attempted_app, Hatt. cbn [attempted app option_list].
    by rewrite app_nil_r.
Qed.

(** A real run in which no job disturbs the names resolved later. *)
Lemma processHashesSeq_real_attempted dest f0 order env s :
  simulate env = false →
  undisturbed env dest f0 order s →
  attempted (stdout (snd (processHashesSeq dest order env s))) =
  attempted (stdout s) ++ mappings env dest f0 order.
Proof.
  intros Hsim. revert s. induction order as [|v order IH]; intros s Hund.
  - cbn. by rewrite app_nil_r.
  - destruct Hund as [Hdst Hund].
    rewrite processHashesSeq_cons, (IH _ Hund), (job_real_attempted _ _ _ _ Hsim).
    unfold mappings. cbn [omap list_omap]. rewrite <- app_assoc. f_equal.
    unfold mapping. rewrite Hdst.
    by destruct (String.eqb v (destinationOn env dest f0 v)).
Qed.

(** Without renaming the destination is a function of the source path. *)
Lemma undisturbed_no_rename dest f0 order env s :
  rename env = false → undisturbed env dest f0 order s.
Proof.
  intros Hren. revert s. induction order as [|v order IH]; intros s; [done|].
  split; [|apply IH].
  unfold destinationOn. by rewrite !destFileName_run, Hren.
Qed.

(** C4, as amended. A simulated run changes no file, moves no counter and
    makes no system call that could change a file; it reports, in the order
    of its jobs, the mapping of every survivor whose job is not skipped, as
    computed on the file system it started from. The real run with the same
    flags attempts exactly these mappings provided none of its jobs changes
    the destination a later job computes (which a single job cannot do, and
    which cannot happen without renaming). *)
Theorem simulated_run env dest order s :
  let sim := with_simulate true env in
  let real := with_simulate false env in
  let s_sim := snd (processHashesSeq dest order sim s) in
  let s_real := snd (processHashesSeq dest order real s) in
  (fs s_sim = fs s ∧ hashes s_sim = hashes s ∧ collisions s_sim = collisions s ∧
   copyErrors s_sim = copyErrors s ∧ removeErrors s_sim = removeErrors s ∧
   ∃ tr, trace s_sim = trace s ++ tr ∧ Forall (fun o => mutating o = false) tr) ∧
  reported (stdout s_sim) = reported (stdout s) ++ mappings env dest (fs s) order ∧
  (undisturbed real dest (fs s) order s →
   attempted (stdout s_real) = attempted (stdout s) ++ mappings env dest (fs s) order).
Proof.
  cbn zeta.
  destruct (processHashesSeq_simulated dest order (with_simulate true env) s eq_refl)
    as [Hframe Hrep].
  rewrite mappings_simulate in Hrep.
  split; [exact Hframe|]. split; [exact Hrep|].
  intros Hund.
  rewrite (processHashesSeq_real_attempted dest (fs s) order (with_simulate false env) s eq_refl Hund).
  by rewrite mappings_simulate.
Qed.

(** With renaming: the two photos of [fs_three] that survive, run in the
    order in which they were hashed. *)
Lemma simulated_run_witness :
  let env := env_of true false false in
  let s := snd (hashJobs [("/a", "a.jpg"); ("/a", "c.jpg"); ("/b", "b.jpg")] env
                  (start fs_three)) in
  let order := ["/a/a.jpg"; "/a/c.jpg"] in
  let maps := [("/a/a.jpg", "/out/20190304T050607 a.jpg");
               ("/a/c.jpg", "/out/20190304T050607 c.jpg")] in
  let s_sim := snd (processHashesSeq "/out" order (with_simulate true env) s) in
  let s_real := snd (processHashesSeq "/out" order (with_simulate false env) s) in
  fs s_sim = fs_three ∧ reported (stdout s_sim) = maps ∧ attempted (stdout s_real) = maps.
Proof.
  cbn zeta.
  pose proof (simulated_run (env_of true false false) "/out" ["/a/a.jpg"; "/a/c.jpg"]
                (snd (hashJobs [("/a", "a.jpg"); ("/a", "c.jpg"); ("/b", "b.jpg")]
                        (env_of true false false) (start fs_three)))) as H.
  cbn zeta in H. destruct H as ((Hfs & _) & Hrep & Hatt).
  rewrite Hfs, Hrep, Hatt.
  - vm_compute. repeat split.
  - vm_compute. repeat split.
Defined.

(** Without renaming the proviso always holds. *)
Corollary simulated_run_no_rename env dest order s :
  rename env = false →
  reported (stdout (snd (processHashesSeq dest order (with_simulate true env) s))) =
    reported (stdout s) ++ mappings env dest (fs s) order ∧
  attempted (stdout (snd (processHashesSeq dest order (with_simulate false env) s))) =
    attempted (stdout s) ++ mappings env dest (fs s) order.
Proof.
  intros Hren. split.
  - destruct (processHashesSeq_simulated dest order (with_simulate true env) s eq_refl)
      as [_ Hrep].
    by rewrite mappings_simulate in Hrep.
  - rewrite (processHashesSeq_real_attempted dest (fs s) order (with_simulate false env) s eq_refl)
      by (by apply undisturbed_no_rename).
    by rewrite mappings_simulate.
Qed.

(** C4, as stated, fails. In [fs_rerun] both photos resolve to one
    destination name, which is taken by a second name of the second photo.
    The simulated run reports that name for both. The real run copies the
    first photo over that file, and so over the second photo, whose
    timestamp is then the time of that write: it attempts another mapping
    for the second photo than the simulated run reports. *)
Lemma simulated_run_rerun :
  ¬ (∀ env dest order s m,
       order ≡ₚ survivors s →
       m ∈ reported (drop (length (stdout s))
                       (stdout (snd (processHashesSeq dest order (with_simulate true env) s)))) ↔
       m ∈ attempted (drop (length (stdout s))
                        (stdout (snd (processHashesSeq dest order (with_simulate false env) s))))).
Proof.
  intros H.
  specialize (H env_rerun "/out" ["/a/p.jpg"; "/b/p.jpg"]
                (snd (hashJobs [("/a", "p.jpg"); ("/b", "p.jpg")] env_rerun (start fs_rerun)))
                ("/b/p.jpg", "/out/20190304T050607 p.jpg")).
  assert (["/a/p.jpg"; "/b/p.jpg"] ≡ₚ
          survivors (snd (hashJobs [("/a", "p.jpg"); ("/b", "p.jpg")] env_rerun
                            (start fs_rerun)))) as Hperm by (vm_compute; reflexivity).
  apply H in Hperm. clear H. destruct Hperm as [Hin _].
  match type of Hin with
  | _ ∈ ?l → _ ∈ ?r =>
      assert (l = [("/a/p.jpg", "/out/20190304T050607 p.jpg");
                   ("/b/p.jpg", "/out/20190304T050607 p.jpg")]) as Hl
        by (vm_compute; reflexivity);
      assert (r = [("/a/p.jpg", "/out/20190304T050607 p.jpg");
                   ("/b/p.jpg", "/out/20210615T120000 p.jpg")]) as Hr
        by (vm_compute; reflexivity);
      rewrite Hl, Hr in Hin
  end.
  assert (("/b/p.jpg", "/out/20190304T050607 p.jpg") ∈
          [("/a/p.jpg", "/out/20190304T050607 p.jpg");
           ("/b/p.jpg", "/out/20190304T050607 p.jpg")]) as Hrep by (right; left).
  apply Hin in Hrep.
  repeat (apply elem_of_cons in Hrep as [Hrep|Hrep]; [discriminate|]).
  by apply elem_of_nil in Hrep.
Qed.

Example simulated_run_rerun_mappings :
  let s := snd (hashJobs [("/a", "p.jpg"); ("/b", "p.jpg")] env_rerun (start fs_rerun)) in
  reported (stdout (snd (processHashesSeq "/out" ["/a/p.jpg"; "/b/p.jpg"]
                           (with_simulate true env_rerun) s))) =
    [("/a/p.jpg", "/out/20190304T050607 p.jpg"); ("/b/p.jpg", "/out/20190304T050607 p.jpg")] ∧
  attempted (stdout (snd (processHashesSeq "/out" ["/a/p.jpg"; "/b/p.jpg"]
                            (with_simulate false env_rerun) s))) =
    [("/a/p.jpg", "/out/20190304T050607 p.jpg"); ("/b/p.jpg", "/out/20210615T120000 p.jpg")].
Proof. vm_compute. auto. Qed.

(** ** Jobs, step by step *)

Lemma finish_andThen {A B} (t : Task A) (k : A → Task B) env s :
  finish (andThen t k) env s = finish (k (fst (finish t env s))) env (snd (finish t env s)).
Proof.
  revert s. induction t as [a|X m k' IH]; intros s; [reflexivity|].
  cbn [andThen finish]. rewrite !bind_run. apply IH.
Qed.

(** Carried out without interruption, the steps of a function are the
    function. *)
Lemma finish_getFileTime filePath env s :
  finish (Steps.getFileTime filePath) env s = getFileTime filePath env s.
Proof.
  unfold Steps.getFileTime, getFileTime.
  repeat (first [ progress cbn [finish] | rewrite bind_run | case_match ]); reflexivity.
Qed.

Lemma finish_copyFileContents src dst env s :
  finish (Steps.copyFileContents src dst) env s = copyFileContents src dst env s.
Proof.
  unfold Steps.copyFileContents, copyFileContents. cbn [finish]. rewrite !bind_run.
  destruct (os_Open src env s) as [[inp|err] s1]; cbn [fst snd finish]; [|reflexivity].
  rewrite !bind_run.
  destruct (os_Create dst env s1) as [[out|err] s2]; cbn [fst snd finish];
    [|by rewrite !bind_run].
  rewrite !bind_run.
  destruct (io_Copy out inp env s2) as [[e|] s3]; cbn [fst snd andThen finish];
    rewrite !bind_run; cbn [ret fst snd]; rewrite ?bind_run; reflexivity.
Qed.

Lemma finish_copyFile src dst env s :
  finish (Steps.copyFile src dst) env s = copyFile src dst env s.
Proof.
  unfold Steps.copyFile, copyFile.
  repeat (first [ progress cbn [finish] | rewrite bind_run | rewrite finish_copyFileContents
                | case_match ]); reflexivity.
Qed.

Lemma finish_destFileName sourceFile env s :
  finish (Steps.destFileName env sourceFile) env s = destFileName sourceFile env s.
Proof.
  rewrite destFileName_run. unfold Steps.destFileName.
  destruct (rename env); [|reflexivity].
  rewrite finish_andThen, finish_getFileTime.
  destruct (getFileTime sourceFile env s) as [[[fTime err] noRename] s1]. cbn [fst snd].
  destruct err as [e|]; cbn [andThen finish]; rewrite ?bind_run; destruct noRename;
    cbn; by rewrite ?ReplaceAll_colon.
Qed.

Lemma finish_materialize sourceFile destinationFile env s :
  finish (Steps.materialize env sourceFile destinationFile) env s =
  materialize sourceFile destinationFile env s.
Proof.
  unfold Steps.materialize, materialize. rewrite bind_run. cbn [ask fst snd].
  destruct (String.eqb sourceFile destinationFile); [reflexivity|].
  destruct (simulate env); [reflexivity|].
  cbn [finish]. rewrite !bind_run, finish_andThen, finish_copyFile.
  destruct (copyFile sourceFile destinationFile env _) as [[e|] s1]; cbn [fst snd].
  - reflexivity.
  - destruct (move env); [|reflexivity].
    cbn [finish]. rewrite !bind_run. by destruct (os_Remove sourceFile env s1) as [[e|] s2].
Qed.

Lemma finish_processHashesJob dest sourceFile env s :
  finish (Steps.processHashesJob env dest sourceFile) env s =
  processHashesJob dest sourceFile env s.
Proof.
  unfold Steps.processHashesJob, processHashesJob.
  by rewrite finish_andThen, finish_destFileName, finish_materialize, bind_run.
Qed.

(** ** The workers *)

Lemma forEach_app {A} (f : A → M unit) l1 l2 env s :
  forEach f (l1 ++ l2) env s = forEach f l2 env (snd (forEach f l1 env s)).
Proof.
  revert s. induction l1 as [|x l1 IH]; intros s; [reflexivity|].
  cbn [app forEach]. rewrite !bind_run. apply IH.
Qed.

Lemma forEach_idle (l : list (Task unit)) env s :
  forallb idle l = true → forEach finish l env s = (tt, s).
Proof.
  induction l as [|t l IH]; [reflexivity|]. cbn [forallb forEach].
  intros [Ht Hl]%andb_true_iff. rewrite bind_run.
  destruct t as [[]|]; [|discriminate]. by apply IH.
Qed.

(** What [Wait] does when one worker at most is at a job. *)
Lemma Wait_one id p t env s :
  others_idle id p = true → workers p !! id = Some t →
  Wait p env s = forEach finish (workerJobs p) env (snd (finish t env s)).
Proof.
  intros [Hpre Hpost]%andb_true_iff Ht.
  pose proof (take_drop_middle _ _ _ Ht) as Hsplit.
  remember (take id (workers p)) as pre. remember (drop (S id) (workers p)) as post.
  unfold Wait. rewrite bind_run, <- Hsplit, forEach_app.
  rewrite (forEach_idle pre) by done. cbn [snd forEach]. rewrite bind_run.
  by rewrite (forEach_idle post).
Qed.

Lemma others_idle_insert id p jobs t :
  others_idle id (mkPool jobs (<[id := t]> (workers p))) = others_idle id p.
Proof.
  unfold others_idle. cbn [workers].
  by rewrite take_insert_ge, drop_insert_lt by lia.
Qed.

(** A step of a worker while the others are idle changes nothing to what
    the run does as a whole. *)
Lemma Wait_worker id p env s :
  others_idle id p = true →
  Wait (fst (worker id p env s)) env (snd (worker id p env s)) = Wait p env s.
Proof.
  intros Hidle. unfold worker.
  destruct (workers p !! id) as [t|] eqn:Ht; [|reflexivity].
  assert (id < length (workers p))%nat as Hlen by (by eapply lookup_lt_Some).
  rewrite (Wait_one id p t) by done.
  destruct t as [[]|X m k].
  - destruct (workerJobs p) as [|job rest] eqn:Hjobs; cbn [fst snd].
    + rewrite (Wait_one id p (Done tt)) by done. by rewrite Hjobs.
    + rewrite (Wait_one id _ job).
      * cbn [workerJobs finish ret snd forEach]. by rewrite bind_run.
      * by rewrite others_idle_insert.
      * cbn [workers]. by apply list_lookup_insert_eq.
  - destruct (m env s) as [x s'] eqn:Hm. cbn [fst snd].
    rewrite (Wait_one id _ (k x)).
    + cbn [workerJobs finish]. by rewrite bind_run, Hm.
    + by rewrite others_idle_insert.
    + cbn [workers]. by apply list_lookup_insert_eq.
Qed.

Lemma schedule_exclusive sched p env s :
  fst (exclusive sched p env s) = true →
  Wait (fst (schedule sched p env s)) env (snd (schedule sched p env s)) = Wait p env s.
Proof.
  revert p s. induction sched as [|id sched IH]; intros p s; [reflexivity|].
  cbn [exclusive schedule].
  destruct (others_idle id p) eqn:Hidle; [|discriminate].
  rewrite !bind_run. intros Hex. rewrite (IH _ _ Hex). by apply Wait_worker.
Qed.

Lemma forEach_fmap {A B} (f : B → M unit) (g : A → B) l env s :
  forEach f (g <$> l) env s = forEach (fun x => f (g x)) l env s.
Proof.
  revert s. induction l as [|x l IH]; intros s; [reflexivity|].
  cbn [fmap list_fmap forEach]. rewrite !bind_run. apply IH.
Qed.

Lemma forEach_ext {A} (f g : A → M unit) l env s :
  (∀ x s, f x env s = g x env s) → forEach f l env s = forEach g l env s.
Proof.
  intros Hfg. revert s. induction l as [|x l IH]; intros s; [reflexivity|].
  cbn [forEach]. by rewrite !bind_run, Hfg, IH.
Qed.

(** With all workers idle and the jobs in the channel, [Wait] is the run
    of the jobs one after the other. *)
Lemma Wait_submitted concurrency dest order env s :
  Wait (submitted env concurrency dest order) env s = processHashesSeq dest order env s.
Proof.
  unfold Wait, processHashesSeq, submitted. cbn [workers workerJobs]. rewrite bind_run.
  rewrite (forEach_idle (replicate concurrency (Done tt))).
  - cbn [snd]. rewrite forEach_fmap. apply forEach_ext. intros v s'.
    apply finish_processHashesJob.
  - clear. by induction concurrency.
Qed.

(** A run under a schedule that lets no two jobs overlap is a run of the
    jobs one after the other. *)
Lemma processHashes_no_overlap concurrency sched dest order env s :
  no_overlap concurrency sched dest order env s →
  processHashes concurrency sched dest order env s = processHashesSeq dest order env s.
Proof.
  unfold no_overlap. intros Hex. unfold processHashes. rewrite !bind_run. cbn [ask fst snd].
  by rewrite (schedule_exclusive _ _ _ _ Hex), Wait_submitted.
Qed.

(** ** Two survivors, one destination *)

Section SystemCalls.
Variables (env : Env) (s : State).

Lemma os_Stat_ok p i nd :
  faults env (OpStat p) = None → resolve (fs s) p = Some (i, nd) →
  os_Stat p env s =
  (Ok (mkFileInfo (filepath.Base p) (i_mode nd) i (i_mtime nd)), add_trace (OpStat p) s).
Proof. intros Hf Hr. by rewrite os_Stat_run, Hf, Hr. Qed.

Lemma os_Stat_missing p :
  faults env (OpStat p) = None → names (fs s) !! p = None →
  os_Stat p env s = (Err (SysError ENOENT (OpStat p)), add_trace (OpStat p) s).
Proof. intros Hf Hn. rewrite os_Stat_run, Hf. unfold resolve. by rewrite Hn. Qed.

Lemma os_Open_ok p i nd :
  faults env (OpOpen p) = None → resolve (fs s) p = Some (i, nd) →
  os_Open p env s = (Ok (mkFile i), add_trace (OpOpen p) s).
Proof.
  intros Hf Hr. unfold os_Open, bind, syscall, get, ret. cbn. by rewrite Hf, Hr.
Qed.

(** A link to a name that exists fails, whatever the environment. *)
Lemma os_Link_exists src dst i :
  names (fs s) !! dst = Some i →
  ∃ e, os_Link src dst env s = (Some e, add_trace (OpLink src dst) s).
Proof.
  intros Hd. unfold os_Link, bind, syscall, get, ret, modify. cbn.
  destruct (faults env (OpLink src dst)); [eauto|].
  destruct (resolve (fs s) src) as [[j nd]|]; [|eauto].
  destruct (IsDir (i_mode nd)); [eauto|]. rewrite Hd. eauto.
Qed.

Lemma os_Link_new src dst i nd :
  resolve (fs s) src = Some (i, nd) → i_mode nd = ModeRegular →
  names (fs s) !! dst = None →
  (∃ e, os_Link src dst env s = (Some e, add_trace (OpLink src dst) s)) ∨
  os_Link src dst env s =
    (None, set_fs (mkFS (<[dst := i]> (names (fs s)))
                        (<[i := set_nlink (S (i_nlink nd)) nd]> (inodes (fs s))))
             (add_trace (OpLink src dst) s)).
Proof.
  intros Hs Hreg Hd. unfold os_Link, bind, syscall, get, ret, modify. cbn.
  destruct (faults env (OpLink src dst)); [eauto|].
  rewrite Hs, Hreg, Hd. cbn. by right.
Qed.

Lemma os_Create_existing dst i nd :
  faults env (OpCreate dst) = None →
  resolve (fs s) dst = Some (i, nd) → IsDir (i_mode nd) = false →
  os_Create dst env s =
    (Ok (mkFile i),
     set_fs (mkFS (names (fs s)) (<[i := set_data [] (clock env) nd]> (inodes (fs s))))
            (add_trace (OpCreate dst) s)).
Proof.
  intros Hf Hr Hdir. unfold os_Create, bind, syscall, get, ask, ret, modify. cbn.
  rewrite Hf. unfold resolve in Hr.
  destruct (names (fs s) !! dst) as [j|]; [|done].
  destruct (inodes (fs s) !! j) as [nd'|]; [|done].
  injection Hr as -> ->. by rewrite Hdir.
Qed.

Lemma os_Create_new dst :
  faults env (OpCreate dst) = None → names (fs s) !! dst = None →
  os_Create dst env s =
    (Ok (mkFile (fresh_ino (fs s))),
     set_fs (mkFS (<[dst := fresh_ino (fs s)]> (names (fs s)))
                  (<[fresh_ino (fs s) :=
                       mkInode ModeRegular [] 1 (clock env) (Some (clock env))]>
                     (inodes (fs s))))
            (add_trace (OpCreate dst) s)).
Proof.
  intros Hf Hn. unfold os_Create, bind, syscall, get, ask, ret, modify. cbn.
  by rewrite Hf, Hn.
Qed.

Lemma io_Copy_ok out inp no ni :
  faults env (OpCopy (fd_ino out) (fd_ino inp)) = None →
  inodes (fs s) !! fd_ino inp = Some ni → inodes (fs s) !! fd_ino out = Some no →
  IsDir (i_mode ni) = false →
  io_Copy out inp env s =
    (None,
     set_fs (mkFS (names (fs s))
                  (<[fd_ino out := set_data (overwrite (i_data ni) (i_data no)) (clock env) no]>
                     (inodes (fs s))))
            (add_trace (OpCopy (fd_ino out) (fd_ino inp)) s)).
Proof.
  intros Hf Hi Ho Hdir. unfold io_Copy, bind, syscall, get, ask, ret, modify. cbn.
  by rewrite Hf, Hi, Ho, Hdir.
Qed.

Lemma File_Sync_ok f :
  faults env (OpSync (fd_ino f)) = None →
  File_Sync f env s = (None, add_trace (OpSync (fd_ino f)) s).
Proof. intros Hf. unfold File_Sync, bind, syscall, ret. cbn. by rewrite Hf. Qed.

Lemma File_Close_ok f :
  faults env (OpClose (fd_ino f)) = None →
  File_Close f env s = (None, add_trace (OpClose (fd_ino f)) s).
Proof. intros Hf. unfold File_Close, bind, syscall, ret. cbn. by rewrite Hf. Qed.

End SystemCalls.

(** Written into an empty file, the data is all it holds. *)
Lemma overwrite_nil data : overwrite data [] = data.
Proof. unfold overwrite. by rewrite drop_nil, app_nil_r. Qed.

(** The fresh inode number is not in use. *)
Lemma fresh_ino_unused f : inodes f !! fresh_ino f = None.
Proof. apply not_elem_of_dom. unfold fresh_ino. apply is_fresh. Qed.

(** The byte copy of a regular file: the destination, new or not, ends
    up a regular file with the content of the source, and nothing else
    changes. *)
Lemma copyFileContents_ok src dst env s i nd :
  only_links_fail env →
  resolve (fs s) src = Some (i, nd) → i_mode nd = ModeRegular →
  match resolve (fs s) dst with
  | Some (j, ndj) => i_mode ndj = ModeRegular ∧ j ≠ i
  | None => names (fs s) !! dst = None
  end →
  let s' := snd (copyFileContents src dst env s) in
  fst (copyFileContents src dst env s) = None ∧
  ∃ j ndj, resolve (fs s') dst = Some (j, ndj) ∧ j ≠ i ∧
           i_mode ndj = ModeRegular ∧ i_data ndj = i_data nd ∧
           (match resolve (fs s) dst with Some (j', _) => j = j' | None => j = fresh_ino (fs s) end) ∧
           (∀ p, p ≠ dst → names (fs s') !! p = names (fs s) !! p) ∧
           (∀ k, k ≠ j → inodes (fs s') !! k = inodes (fs s) !! k).
Proof.
  intros Hq Hsrc Hreg Hdst. cbn zeta.
  assert (inodes (fs s) !! i = Some nd) as Hi.
  { unfold resolve in Hsrc. destruct (names (fs s) !! src); [|done].
    destruct (inodes (fs s) !! n) eqn:Hn; [|done]. by injection Hsrc as <- <-. }
  unfold copyFileContents.
  rewrite bind_run, (os_Open_ok env s src i nd) by (try apply Hq; done).
  cbn [fst snd]. rewrite bind_run.
  destruct (resolve (fs s) dst) as [[j ndj]|] eqn:Hd.
  - destruct Hdst as [Hregj Hji].
    assert (names (fs s) !! dst = Some j ∧ inodes (fs s) !! j = Some ndj) as [Hnj Hij].
    { unfold resolve in Hd. destruct (names (fs s) !! dst); [|done].
      destruct (inodes (fs s) !! n) eqn:Hn; [|done]. by injection Hd as <- <-. }
    rewrite (os_Create_existing env _ dst j ndj)
      by (try apply Hq; try done; by rewrite Hregj).
    cbn [fst snd]. rewrite bind_run.
    erewrite io_Copy_ok; cycle 1.
    { by apply Hq. }
    { cbn. rewrite lookup_insert_ne by done. exact Hi. }
    { cbn. apply lookup_insert_eq. }
    { by rewrite Hreg. }
    cbn [fst snd]. rewrite bind_run, File_Sync_ok by (by apply Hq).
    cbn [fst snd]. rewrite bind_run, File_Close_ok by (by apply Hq).
    cbn [fst snd]. rewrite bind_run, File_Close_ok by (by apply Hq).
    cbn. rewrite overwrite_nil.
    split; [done|]. exists j, (set_data (i_data nd) (clock env) (set_data [] (clock env) ndj)).
    unfold resolve. cbn. rewrite Hnj, insert_insert_eq, lookup_insert_eq.
    repeat split; try done.
    intros k Hk. by rewrite lookup_insert_ne.
  - rewrite (os_Create_new env _ dst) by (try apply Hq; done).
    cbn [fst snd]. rewrite bind_run.
    pose proof (fresh_ino_unused (fs s)) as Hfresh.
    assert (fresh_ino (fs s) ≠ i) as Hne by (intros Heq; rewrite Heq in Hfresh; congruence).
    erewrite io_Copy_ok; cycle 1.
    { by apply Hq. }
    { cbn. rewrite lookup_insert_ne by done. exact Hi. }
    { cbn. apply lookup_insert_eq. }
    { by rewrite Hreg. }
    cbn [fst snd]. rewrite bind_run, File_Sync_ok by (by apply Hq).
    cbn [fst snd]. rewrite bind_run, File_Close_ok by (by apply Hq).
    cbn [fst snd]. rewrite bind_run, File_Close_ok by (by apply Hq).
    cbn. rewrite overwrite_nil. split; [done|].
    eexists (fresh_ino (fs s)), _.
    unfold resolve. cbn. rewrite lookup_insert_eq, insert_insert_eq, lookup_insert_eq.
    repeat split; try done.
    + intros p Hp. by rewrite lookup_insert_ne.
    + intros k Hk. by rewrite lookup_insert_ne.
Qed.

Lemma resolve_Some f p i nd :
  resolve f p = Some (i, nd) ↔ names f !! p = Some i ∧ inodes f !! i = Some nd.
Proof.
  unfold resolve. split.
  - destruct (names f !! p) as [j|]; [|done].
    destruct (inodes f !! j) as [nd'|] eqn:Hj; [|done].
    by intros [= <- <-].
  - intros [Hn Hi]. by rewrite Hn, Hi.
Qed.

(** [copyFile] of a regular file to a destination that does not exist, or
    is another regular file: it succeeds, by a link or by a copy, and the
    destination is a regular file with the content of the source. Only the
    entry of the destination and the inode it names are touched. *)
Lemma copyFile_ok src dst env s i nd :
  only_links_fail env →
  resolve (fs s) src = Some (i, nd) → i_mode nd = ModeRegular →
  match resolve (fs s) dst with
  | Some (j, ndj) => i_mode ndj = ModeRegular ∧ j ≠ i
  | None => names (fs s) !! dst = None
  end →
  let s' := snd (copyFile src dst env s) in
  fst (copyFile src dst env s) = None ∧
  ∃ j ndj, resolve (fs s') dst = Some (j, ndj) ∧
           i_mode ndj = ModeRegular ∧ i_data ndj = i_data nd ∧
           (match resolve (fs s) dst with
            | Some (j', _) => j = j'
            | None => j = fresh_ino (fs s) ∨ (j = i ∧ i_nlink ndj = S (i_nlink nd))
            end) ∧
           (∀ p, p ≠ dst → names (fs s') !! p = names (fs s) !! p) ∧
           (∀ k, k ≠ j → inodes (fs s') !! k = inodes (fs s) !! k).
Proof.
  intros Hq Hsrc Hreg Hdst. cbn zeta.
  unfold copyFile.
  rewrite bind_run, (os_Stat_ok env s src i nd) by (try apply Hq; done).
  cbn [fst snd fi_mode]. rewrite Hreg. cbn [IsRegular negb]. rewrite bind_run.
  set (s0 := add_trace (OpStat src) s).
  assert (fs s0 = fs s) as Hfs0 by reflexivity.
  destruct (resolve (fs s) dst) as [[j ndj]|] eqn:Hd.
  - destruct Hdst as [Hregj Hji].
    rewrite (os_Stat_ok env s0 dst j ndj) by (try apply Hq; done).
    cbn [fst snd fi_mode]. rewrite Hregj. cbn [IsRegular negb].
    unfold SameFile. cbn [fi_ino].
    assert (Nat.eqb i j = false) as -> by (apply Nat.eqb_neq; congruence).
    rewrite bind_run.
    set (s1 := add_trace (OpStat dst) s0).
    apply resolve_Some in Hd as Hd'. destruct Hd' as [Hnj _].
    destruct (os_Link_exists env s1 src dst j Hnj) as [e ->]. cbn [fst snd].
    set (s2 := add_trace (OpLink src dst) s1).
    destruct (copyFileContents_ok src dst env s2 i nd Hq Hsrc Hreg) as (Hnone & j' & ndj' & H).
    { change (fs s2) with (fs s). by rewrite Hd. }
    change (fs s2) with (fs s) in H. rewrite Hd in H.
    destruct H as (Hr & _ & Hm & Hdata & -> & Hnames & Hinodes).
    split; [done|]. by exists j, ndj'.
  - rewrite (os_Stat_missing env s0 dst) by (try apply Hq; done).
    cbn [fst snd IsNotExist negb]. rewrite bind_run.
    set (s1 := add_trace (OpStat dst) s0).
    destruct (os_Link_new env s1 src dst i nd Hsrc Hreg Hdst) as [[e ->]| ->]; cbn [fst snd].
    + set (s2 := add_trace (OpLink src dst) s1).
      destruct (copyFileContents_ok src dst env s2 i nd Hq Hsrc Hreg) as (Hnone & j' & ndj' & H).
      { change (fs s2) with (fs s). by rewrite Hd. }
      change (fs s2) with (fs s) in H. rewrite Hd in H.
      destruct H as (Hr & _ & Hm & Hdata & -> & Hnames & Hinodes).
      split; [done|]. eexists _, ndj'. repeat split; eauto.
    + split; [done|]. exists i, (set_nlink (S (i_nlink nd)) nd).
      cbn. unfold resolve. cbn. rewrite !lookup_insert_eq.
      repeat split; eauto.
      * intros p Hp. by rewrite lookup_insert_ne.
      * intros k Hk. by rewrite lookup_insert_ne.
Qed.

Lemma os_Remove_ok v env s i n :
  only_links_fail env → resolve (fs s) v = Some (i, n) →
  let s' := snd (os_Remove v env s) in
  fst (os_Remove v env s) = None ∧
  names (fs s') = delete v (names (fs s)) ∧
  (∀ k, k ≠ i → inodes (fs s') !! k = inodes (fs s) !! k) ∧
  ((2 ≤ i_nlink n)%nat →
   ∃ n', inodes (fs s') !! i = Some n' ∧ i_mode n' = i_mode n ∧ i_data n' = i_data n).
Proof.
  intros Hq Hv. cbn zeta. rewrite os_Remove_run, Hq, Hv by done. cbn.
  repeat split.
  - intros k Hk. destruct (i_nlink n) as [|[|m]];
      by rewrite ?lookup_delete_ne, ?lookup_insert_ne.
  - intros Hn. destruct (i_nlink n) as [|[|m]]; [lia | lia |].
    rewrite lookup_insert_eq. by eexists.
Qed.

(** A real job on a regular source and a destination that does not exist
    or is another regular file: no error is counted, and the destination
    is a regular file with the content of the source. *)
Lemma materialize_places v d env s i n :
  simulate env = false → only_links_fail env →
  resolve (fs s) v = Some (i, n) → i_mode n = ModeRegular → (1 ≤ i_nlink n)%nat →
  v ≠ d →
  match resolve (fs s) d with
  | Some (j, ndj) => i_mode ndj = ModeRegular ∧ j ≠ i
  | None => names (fs s) !! d = None
  end →
  let s' := snd (materialize v d env s) in
  copyErrors s' = copyErrors s ∧ removeErrors s' = removeErrors s ∧
  ∃ j, placed (fs s') d j (i_data n) ∧
       (match resolve (fs s) d with
        | Some (j', _) => j = j'
        | None => j = fresh_ino (fs s) ∨ j = i
        end) ∧
       (∀ p, p ≠ d → p ≠ v → names (fs s') !! p = names (fs s) !! p) ∧
       (∀ k, k ≠ j → k ≠ i → inodes (fs s') !! k = inodes (fs s) !! k).
Proof.
  intros Hsim Hq Hv Hreg Hlink Hne Hd. cbn zeta.
  rewrite (materialize_real _ _ _ _ Hsim Hne). cbn [snd].
  set (s0 := add_stdout _ s).
  destruct (copyFile_ok v d env s0 i n Hq Hv Hreg Hd)
    as (Hnone & j & ndj & Hr & Hm & Hdata & Hj & Hnames & Hinodes).
  pose proof (sys_only_copyFile v d env s0) as Hprog.
  apply prog_fields in Hprog. destruct Hprog as (_ & _ & Hce & Hre & _).
  change (fs s0) with (fs s) in *. change (copyErrors s0) with (copyErrors s) in Hce.
  change (removeErrors s0) with (removeErrors s) in Hre.
  rewrite Hnone.
  set (s1 := snd (copyFile v d env s0)) in *.
  assert (match resolve (fs s) d with
          | Some (j', _) => j = j'
          | None => j = fresh_ino (fs s) ∨ j = i
          end) as Hj'.
  { destruct (resolve (fs s) d) as [[j' ?]|]; [done|]. destruct Hj as [?|[? _]]; auto. }
  destruct (move env).
  - assert (∃ nv, resolve (fs s1) v = Some (i, nv) ∧
                  (j = i → (2 ≤ i_nlink nv)%nat)) as (nv & Hv1 & Hnv).
    { apply resolve_Some in Hv as [Hvn Hvi].
      destruct (decide (j = i)) as [->|Hji].
      - apply resolve_Some in Hr as [_ Hri]. exists ndj. split.
        + apply resolve_Some. by rewrite Hnames.
        + intros _. destruct (resolve (fs s) d) as [[j' ?]|].
          * destruct Hd as [_ Hd]. congruence.
          * destruct Hj as [Hj|[_ ->]]; [|lia].
            pose proof (fresh_ino_unused (fs s)). congruence.
      - exists n. split; [|done]. apply resolve_Some. by rewrite Hnames, Hinodes. }
    destruct (os_Remove_ok v env s1 i nv Hq Hv1) as (Hrm & Hrn & Hri & Hrk).
    rewrite Hrm.
    pose proof (sys_only_os_Remove v env s1) as Hprog.
    apply prog_fields in Hprog. destruct Hprog as (_ & _ & Hce' & Hre' & _).
    rewrite Hce', Hre', Hce, Hre. split; [done|]. split; [done|].
    exists j. split; [|split; [exact Hj'|split]].
    + apply resolve_Some in Hr as [Hrn' Hri'].
      destruct (decide (j = i)) as [->|Hji].
      * destruct (Hrk (Hnv eq_refl)) as (n' & Hn' & Hm' & Hd').
        assert (nv = ndj) as -> by (apply resolve_Some in Hv1 as [_ Hvi]; congruence).
        exists n'. split; [|split; congruence].
        apply resolve_Some. rewrite Hrn, lookup_delete_ne by done. split; [done|].
        rewrite Hn'. f_equal.
      * exists ndj. split; [|done].
        apply resolve_Some. rewrite Hrn, lookup_delete_ne, Hri by done. done.
    + intros p Hp Hpv. by rewrite Hrn, lookup_delete_ne, Hnames.
    + intros k Hk Hki. by rewrite Hri, Hinodes.
  - rewrite Hce, Hre. split; [done|]. split; [done|].
    exists j. split; [by exists ndj|]. split; [exact Hj'|]. split.
    + intros p Hp _. by apply Hnames.
    + intros k Hk _. by apply Hinodes.
Qed.

Lemma job_places dest v d env s i n :
  simulate env = false → only_links_fail env →
  resolve (fs s) v = Some (i, n) → i_mode n = ModeRegular → (1 ≤ i_nlink n)%nat →
  destinationOn env dest (fs s) v = d → v ≠ d →
  match resolve (fs s) d with
  | Some (j, ndj) => i_mode ndj = ModeRegular ∧ j ≠ i
  | None => names (fs s) !! d = None
  end →
  let s' := snd (processHashesJob dest v env s) in
  copyErrors s' = copyErrors s ∧ removeErrors s' = removeErrors s ∧
  ∃ j, placed (fs s') d j (i_data n) ∧
       (match resolve (fs s) d with
        | Some (j', _) => j = j'
        | None => j = fresh_ino (fs s) ∨ j = i
        end) ∧
       (∀ p, p ≠ d → p ≠ v → names (fs s') !! p = names (fs s) !! p) ∧
       (∀ k, k ≠ j → k ≠ i → inodes (fs s') !! k = inodes (fs s) !! k).
Proof.
  intros Hsim Hq Hv Hreg Hlink Hdest Hne Hd. cbn zeta.
  rewrite processHashesJob_run, destination_on, Hdest.
  destruct (observer_frame (destFileName v) env s (observer_destFileName v))
    as (Hfs & _ & _ & Hce & Hre & _).
  rewrite <- Hfs, <- Hce, <- Hre in *.
  by apply materialize_places.
Qed.

(** Two survivors, regular files of different inodes, for which the
    jobs compute one destination path [d] that does not exist yet, in a
    real run where nothing fails except, possibly, hard links, and the
    second job starts when the first has returned. Both jobs end without
    a counted error. The first job leaves at [d] a file with the content
    of the first survivor; the second job, whose link fails because [d]
    exists, writes the content of the second survivor into that same
    file. *)
Lemma two_jobs_in_turn env dest v1 v2 d s i1 n1 i2 n2 :
  simulate env = false → only_links_fail env →
  v1 ≠ v2 → i1 ≠ i2 →
  resolve (fs s) v1 = Some (i1, n1) → i_mode n1 = ModeRegular → (1 ≤ i_nlink n1)%nat →
  resolve (fs s) v2 = Some (i2, n2) → i_mode n2 = ModeRegular → (1 ≤ i_nlink n2)%nat →
  names (fs s) !! d = None →
  destinationOn env dest (fs s) v1 = d →
  destinationOn env dest (fs (snd (processHashesJob dest v1 env s))) v2 = d →
  let s1 := snd (processHashesJob dest v1 env s) in
  let s' := snd (processHashesSeq dest [v1; v2] env s) in
  copyErrors s' = copyErrors s ∧ removeErrors s' = removeErrors s ∧
  ∃ j, placed (fs s1) d j (i_data n1) ∧ placed (fs s') d j (i_data n2).
Proof.
  intros Hsim Hq Hv12 Hi12 Hv1 Hreg1 Hl1 Hv2 Hreg2 Hl2 Hd Hd1 Hd2. cbn zeta.
  apply resolve_Some in Hv1 as Hv1'. destruct Hv1' as [Hn1 Hino1].
  apply resolve_Some in Hv2 as Hv2'. destruct Hv2' as [Hn2 Hino2].
  assert (v1 ≠ d) as Hne1 by congruence.
  assert (v2 ≠ d) as Hne2 by congruence.
  assert (resolve (fs s) d = None) as Hrd by (unfold resolve; by rewrite Hd).
  destruct (job_places dest v1 d env s i1 n1 Hsim Hq Hv1 Hreg1 Hl1 Hd1 Hne1)
    as (Hce1 & Hre1 & j & Hplaced1 & Hj & Hnames1 & Hinodes1).
  { by rewrite Hrd. }
  rewrite Hrd in Hj.
  set (s1 := snd (processHashesJob dest v1 env s)) in *.
  assert (j ≠ i2) as Hji2.
  { destruct Hj as [->| ->]; [|done].
    pose proof (fresh_ino_unused (fs s)). congruence. }
  assert (resolve (fs s1) v2 = Some (i2, n2)) as Hv2s1.
  { apply resolve_Some. rewrite Hnames1, Hinodes1 by done. done. }
  destruct Hplaced1 as (ndj & Hrj & Hmj & Hdj).
  destruct (job_places dest v2 d env s1 i2 n2 Hsim Hq Hv2s1 Hreg2 Hl2 Hd2 Hne2)
    as (Hce2 & Hre2 & j2 & Hplaced2 & Hj2 & _).
  { by rewrite Hrj. }
  rewrite Hrj in Hj2. subst j2.
  rewrite !processHashesSeq_cons. cbn [processHashesSeq forEach ret snd].
  fold s1. rewrite Hce2, Hre2, Hce1, Hre1.
  split; [done|]. split; [done|].
  exists j. split; [by exists ndj | exact Hplaced2].
Qed.



(** What the destination holds in the end, and what became of the first
    photo: linked to the destination by its job, it was overwritten with
    it. On another volume the first photo is copied, and stays as it
    was. *)
Example same_destination_contents :
  let content f p := (fun r => i_data r.2) <$> resolve f p in
  let s' := snd (processHashesSeq "/out" ["/a/x.jpg"; "/b/x.jpg"] (env_of false false false)
                   (start fs_namesakes)) in
  let s'' := snd (processHashesSeq "/out" ["/a/x.jpg"; "/b/x.jpg"]
                    (mkEnv false false false noon other_volume no_exif)
                    (start fs_namesakes)) in
  content (fs s') "/out/x.jpg" = Some (list_byte_of_string "second") ∧
  content (fs s') "/a/x.jpg" = Some (list_byte_of_string "second") ∧
  copyErrors s' = 0 ∧
  content (fs s'') "/out/x.jpg" = Some (list_byte_of_string "second") ∧
  content (fs s'') "/a/x.jpg" = Some (list_byte_of_string "first") ∧
  copyErrors s'' = 0.
Proof. vm_compute. repeat split. Qed.

(** Links refused, two workers: both jobs have created the destination
    before either copies, and the shorter photo is copied last. *)
Example overlap_contents :
  let env := mkEnv false false false noon other_volume no_exif in
  let sched := (replicate 7 0 ++ replicate 7 1 ++ [1; 0])%nat in
  let s' := snd (processHashes 2 sched "/out" ["/a/x.jpg"; "/b/x.jpg"] env
                   (start fs_namesakes)) in
  (fun r => i_data r.2) <$> resolve (fs s') "/out/x.jpg" = Some (list_byte_of_string "firstd") ∧
  copyErrors s' = 0 ∧
  trace s' =
    [OpStat "/a/x.jpg"; OpStat "/out/x.jpg"; OpLink "/a/x.jpg" "/out/x.jpg";
     OpOpen "/a/x.jpg"; OpCreate "/out/x.jpg";
     OpStat "/b/x.jpg"; OpStat "/out/x.jpg"; OpLink "/b/x.jpg" "/out/x.jpg";
     OpOpen "/b/x.jpg"; OpCreate "/out/x.jpg";
     OpCopy 3 2; OpCopy 3 1;
     OpSync 3; OpClose 3; OpClose 1; OpSync 3; OpClose 3; OpClose 2].
Proof. vm_compute. repeat split. Qed.

(** C5, as stated, fails: the destination does not always end with the
    content of one survivor. The two namesakes of [fs_namesakes] are
    materialized by two workers to a destination on another volume, so that
    both jobs fall back to the byte copy. Both create the destination
    before either copies; [second] is copied first and [first], which is
    shorter, over it. No error is counted, and the destination holds
    [firstd]. *)
Lemma same_destination_overlap :
  ¬ (∀ concurrency sched env dest v1 v2 d s i1 n1 i2 n2,
       simulate env = false → only_links_fail env →
       v1 ≠ v2 → i1 ≠ i2 →
       resolve (fs s) v1 = Some (i1, n1) → i_mode n1 = ModeRegular → (1 ≤ i_nlink n1)%nat →
       resolve (fs s) v2 = Some (i2, n2) → i_mode n2 = ModeRegular → (1 ≤ i_nlink n2)%nat →
       names (fs s) !! d = None →
       destinationOn env dest (fs s) v1 = d →
       destinationOn env dest (fs (snd (processHashesJob dest v1 env s))) v2 = d →
       let s' := snd (processHashes concurrency sched dest [v1; v2] env s) in
       copyErrors s' = copyErrors s ∧ removeErrors s' = removeErrors s ∧
       ∃ j, placed (fs s') d j (i_data n1) ∨ placed (fs s') d j (i_data n2)).
Proof.
  intros H.
  assert (only_links_fail (mkEnv false false false noon other_volume no_exif)) as Hq.
  { intros o Ho. destruct o; try reflexivity. by destruct (Ho src dst). }
  specialize (H 2%nat (replicate 7 0 ++ replicate 7 1 ++ [1; 0])%nat
                (mkEnv false false false noon other_volume no_exif)
                "/out" "/a/x.jpg" "/b/x.jpg" "/out/x.jpg" (start fs_namesakes)
                1%nat (file "first") 2%nat (file "second")
                eq_refl Hq).
  cbn zeta in H.
  destruct H as (_ & _ & j & Hplaced); try (vm_compute; reflexivity); try discriminate;
    try (vm_compute; lia).
  assert (resolve (fs (snd (processHashes 2 (replicate 7 0 ++ replicate 7 1 ++ [1; 0])%nat
                              "/out" ["/a/x.jpg"; "/b/x.jpg"]
                              (mkEnv false false false noon other_volume no_exif)
                              (start fs_namesakes)))) "/out/x.jpg" =
          Some (3%nat, mkInode ModeRegular (list_byte_of_string "firstd") 1 noon (Some noon)))
    as Hr by (vm_compute; reflexivity).
  destruct Hplaced as [(nd & Hnd & _ & Hdata)|(nd & Hnd & _ & Hdata)];
    rewrite Hr in Hnd; injection Hnd as <- <-; vm_compute in Hdata; discriminate.
Qed.

(** ** Paths: the last element of a cleaned path *)

Import filepath.

Lemma append_cons c a b : (String c a ++ b)%string = String c (a ++ b)%string.
Proof. reflexivity. Qed.

Lemma append_assoc a b c : (a ++ (b ++ c))%string = ((a ++ b) ++ c)%string.
Proof. induction a as [|x a IH]; [done|]. by rewrite !append_cons, IH. Qed.

Lemma length_append a b :
  String.length (a ++ b)%string = (String.length a + String.length b)%nat.
Proof. induction a as [|x a IH]; [done|]. rewrite append_cons. cbn. by rewrite IH. Qed.

Lemma split_nonempty s : split s ≠ [].
Proof. destruct s as [|c s]; cbn; [done|]. destruct (IsPathSeparator c); [done|]. by destruct (split s). Qed.

Lemma split_no_sep e : has_sep e = false → split e = [e].
Proof.
  induction e as [|c e IH]; cbn; [done|].
  intros H. apply orb_false_iff in H as [Hc He]. rewrite Hc, (IH He). done.
Qed.

Lemma split_app_sep a b : split (a ++ String "/" b)%string = split a ++ split b.
Proof.
  induction a as [|c a IH]; [done|].
  change (String c a ++ String "/" b)%string with (String c (a ++ String "/" b)%string).
  cbn [split]. rewrite IH. destruct (IsPathSeparator c); [done|].
  pose proof (split_nonempty a). by destruct (split a).
Qed.

Lemma split_elements s e : e ∈ split s → has_sep e = false.
Proof.
  revert e. induction s as [|c s IH]; cbn; intros e He.
  - apply list_elem_of_singleton in He. by subst.
  - destruct (IsPathSeparator c) eqn:Hc.
    + apply elem_of_cons in He as [->|He]; [done | by apply IH].
    + pose proof (split_nonempty s). destruct (split s) as [|e0 es]; [done|].
      apply elem_of_cons in He as [->|He].
      * cbn. rewrite Hc. apply IH. by left.
      * apply IH. by right.
Qed.

Lemma clean_step_element rooted out e : element e → clean_step rooted out e = e :: out.
Proof.
  intros (H1 & H2 & H3 & _). unfold clean_step.
  apply String.eqb_neq in H1, H2, H3. by rewrite H1, H2, H3.
Qed.

Lemma join_sep_snoc l e :
  join_sep (l ++ [e]) = match l with [] => e | _ => (join_sep l ++ String "/" e)%string end.
Proof.
  induction l as [|x l IH]; [done|].
  cbn [app]. destruct l as [|y l]; [done|].
  cbn [app join_sep] in *. rewrite IH. by rewrite <- !append_assoc.
Qed.

Lemma split_join_snoc l e : has_sep e = false → ∃ l', split (join_sep (l ++ [e])) = l' ++ [e].
Proof.
  intros He. rewrite join_sep_snoc. destruct l as [|x l].
  - exists []. by apply split_no_sep.
  - rewrite split_app_sep, (split_no_sep e He). eauto.
Qed.

(** If the last element of [x] that is neither empty nor [.] is a proper
    element, it is the last element of [Clean x]. *)
Lemma Clean_last x l e t :
  split x = l ++ e :: t → element e → Forall (fun c => c = "" ∨ c = ".") t →
  ∃ l', split (Clean x) = l' ++ [e].
Proof.
  intros Hx He Ht.
  destruct x as [|c x'].
  { destruct He as [He _]. destruct l as [|? l]; cbn in Hx.
    - injection Hx as Hx _. by symmetry in Hx.
    - injection Hx as _ Hx. by destruct l. }
  unfold Clean. set (rooted := IsPathSeparator c). rewrite Hx.
  rewrite fold_left_app. cbn [fold_left]. rewrite clean_step_element by done.
  set (out := fold_left _ l []).
  assert (fold_left (clean_step rooted) t (e :: out) = e :: out) as ->.
  { clear Hx. induction Ht as [|c0 t [-> | ->] _ IH]; done. }
  cbn [rev]. destruct He as (Hne & _ & _ & Hsep).
  destruct (split_join_snoc (rev out) e Hsep) as [l' Hl'].
  destruct rooted.
  - exists ("" :: l'). cbn [split IsPathSeparator Separator Ascii.eqb].
    change (IsPathSeparator "/") with true. cbn. by rewrite Hl'.
  - destruct (String.eqb_spec (join_sep (rev out ++ [e])) "") as [Hb|Hb]; [|eauto].
    rewrite Hb in Hl'. cbn in Hl'. exfalso. destruct l' as [|? l']; cbn in Hl'.
    + injection Hl' as Hl'. by symmetry in Hl'.
    + injection Hl' as _ Hl'. by destruct l'.
Qed.

Lemma strip_trailing_id y : List.last (split y) "" ≠ "" → strip_trailing y = y.
Proof.
  induction y as [|c y IH]; [done|].
  cbn [split strip_trailing]. destruct y as [|c' y'].
  - cbn. destruct (IsPathSeparator c); [done|]. done.
  - intros Hl. rewrite IH; [done|].
    pose proof (split_nonempty (String c' y')) as Hne.
    destruct (IsPathSeparator c).
    + destruct (split (String c' y')) as [|e0 es]; [done | exact Hl].
    + destruct (split (String c' y')) as [|e0 [|e1 es]] eqn:Hs; [done| |exact Hl].
      cbn. intros ->.
      cbn in Hs. destruct (IsPathSeparator c').
      * injection Hs as Hs. by apply split_nonempty in Hs.
      * destruct (split y'); simplify_eq.
Qed.

(** The base of a path that ends with a non-empty element. *)
Lemma Base_last y l e : split y = l ++ [e] → e ≠ "" → Base y = e.
Proof.
  intros Hy He.
  assert (List.last (split y) "" = e) as Hlast by (rewrite Hy; apply last_last).
  unfold Base. destruct y as [|c y'].
  { cbn in Hlast. by symmetry in Hlast. }
  rewrite strip_trailing_id by congruence.
  unfold last_element. rewrite Hlast. by destruct e.
Qed.

(** The file name given to [Join] (possibly followed by a separator) is
    the base of the cleaned result. *)
Lemma Base_Clean_Join dest name e t :
  split name = e :: t → element e → Forall (fun c => c = "" ∨ c = ".") t →
  Base (Clean (Join dest name)) = e.
Proof.
  intros Hn He Ht.
  assert (∃ x l, Join dest name = Clean x ∧ split x = l ++ e :: t) as (x & l & -> & Hx).
  { unfold Join. destruct (String.eqb_spec dest "") as [->|Hd].
    - destruct (String.eqb_spec name "") as [->|_].
      + cbn in Hn. destruct He as (He & _). congruence.
      + exists name, []. by rewrite Hn.
    - exists (dest ++ "/" ++ name)%string, (split dest).
      change ("/" ++ name)%string with (String "/" name).
      by rewrite split_app_sep, Hn. }
  destruct (Clean_last x l e t Hx He Ht) as [l1 H1].
  destruct (Clean_last (Clean x) l1 e [] H1 He) as [l2 H2]; [done|].
  apply (Base_last _ l2); [done | apply He].
Qed.

(** ** A renamed destination is never the source *)

Lemma has_sep_app a b : has_sep (a ++ b)%string = has_sep a || has_sep b.
Proof.
  induction a as [|c a IH]; [done|].
  rewrite append_cons. cbn. by rewrite IH, orb_assoc.
Qed.

Lemma remove_colons_app a b :
  remove_colons (a ++ b)%string = (remove_colons a ++ remove_colons b)%string.
Proof.
  induction a as [|c a IH]; [done|].
  rewrite append_cons. cbn. rewrite IH. by destruct (Ascii.eqb c ":").
Qed.

Lemma remove_colons_idem s : remove_colons (remove_colons s) = remove_colons s.
Proof.
  induction s as [|c s IH]; [done|]. cbn.
  destruct (Ascii.eqb c ":") eqn:Hc; [done|]. cbn. by rewrite Hc, IH.
Qed.

Lemma has_sep_remove_colons s : has_sep s = false → has_sep (remove_colons s) = false.
Proof.
  induction s as [|c s IH]; [done|]. cbn.
  intros H. apply orb_false_iff in H as [Hc Hs].
  destruct (Ascii.eqb c ":"); cbn; rewrite ?Hc; auto.
Qed.

Lemma has_sep_digits u : has_sep (NilEmpty.string_of_uint u) = false.
Proof. induction u; cbn; done. Qed.

Lemma has_sep_appendInt x width : has_sep (appendInt x width) = false.
Proof.
  unfold appendInt, pad_zeros. rewrite !has_sep_app.
  assert (has_sep (NilZero.string_of_uint (N.to_uint (Z.to_N (Z.abs x)))) = false) as ->.
  { unfold NilZero.string_of_uint.
    destruct (N.to_uint (Z.to_N (Z.abs x))) eqn:Hu; [done|..];
      rewrite <- Hu; apply has_sep_digits. }
  assert (∀ n, has_sep (String.concat "" (replicate n "0")) = false) as ->.
  { induction n as [|n IH]; [done|]. cbn [replicate String.concat].
    destruct (replicate n "0") eqn:Hr; [done|].
    by rewrite !has_sep_app, IH. }
  by destruct (x <? 0)%Z.
Qed.

Lemma has_sep_Format t : has_sep (Format t timeFormat) = false.
Proof.
  unfold Format. rewrite timeFormat_chunks. cbn [map format_chunk String.concat].
  by rewrite !has_sep_app, !has_sep_appendInt.
Qed.

(** The base of a path is a single separator or has none. *)
Lemma Base_cases p : Base p = "/" ∨ (has_sep (Base p) = false ∧ Base p ≠ "").
Proof.
  unfold Base. destruct p as [|c p]; [by right|].
  unfold last_element.
  set (q := strip_trailing (String c p)).
  pose proof (split_nonempty q) as Hne.
  assert (List.last (split q) "" ∈ split q) as Hin.
  { destruct (exists_last Hne) as (l & e & ->). rewrite last_last.
    apply elem_of_app. right. by left. }
  apply split_elements in Hin.
  destruct (List.last (split q) "") as [|c0 e]; [by left | by right].
Qed.

Lemma with_space_not_dots a s :
  (a ++ String " " s)%string ≠ "." ∧ (a ++ String " " s)%string ≠ ".." ∧
  (a ++ String " " s)%string ≠ "".
Proof.
  assert (In " "%char (list_ascii_of_string (a ++ String " " s)%string)) as Hin.
  { induction a as [|c q IH]; [by left | right; apply IH]. }
  repeat split; intros Hs; rewrite Hs in Hin; cbn in Hin; intuition discriminate.
Qed.

(** The destination built from a timestamp, a space and the base name of
    the source is another path than the source. *)
Lemma renamed_is_not_source dest sourceFile t :
  sourceFile ≠
  Clean (Join dest (remove_colons (Sprintf_s_s (Format t timeFormat) (Base sourceFile)))).
Proof.
  unfold Sprintf_s_s.
  set (b := Base sourceFile).
  set (pre := remove_colons (Format t timeFormat)).
  assert (has_sep pre = false) as Hpre by apply has_sep_remove_colons, has_sep_Format.
  rewrite remove_colons_app.
  change (remove_colons (" " ++ b)%string) with (String " " (remove_colons b)).
  fold pre. intros Heq.
  apply (f_equal Base) in Heq. fold b in Heq.
  pose proof (with_space_not_dots pre) as Hdots.
  destruct (Base_cases sourceFile) as [Hb|[Hb Hne]]; fold b in Hb.
  - rewrite Hb in Heq. change (remove_colons "/") with "/" in Heq.
    rewrite (Base_Clean_Join dest _ (pre ++ " ")%string [""]) in Heq.
    + apply (f_equal has_sep) in Heq. rewrite has_sep_app, Hpre in Heq. discriminate.
    + replace (pre ++ String " " "/")%string
        with ((pre ++ " ") ++ String "/" "")%string by (by rewrite <- append_assoc).
      rewrite split_app_sep, split_no_sep by (by rewrite has_sep_app, Hpre). done.
    + destruct (Hdots "") as (? & ? & ?).
      repeat split; try done. by rewrite has_sep_app, Hpre.
    + by repeat constructor.
  - rewrite (Base_Clean_Join dest _ (pre ++ String " " (remove_colons b))%string []) in Heq.
    + assert (remove_colons b = b) as Hrc.
      { rewrite Heq at 1. rewrite remove_colons_app.
        change (remove_colons (String " " (remove_colons b)))
          with (String " " (remove_colons (remove_colons b))).
        unfold pre at 1. by rewrite !remove_colons_idem. }
      rewrite Hrc in Heq. apply (f_equal String.length) in Heq.
      rewrite length_append in Heq. cbn in Heq. lia.
    + apply split_no_sep. rewrite has_sep_app, Hpre. cbn. by apply has_sep_remove_colons.
    + destruct (Hdots (remove_colons b)) as (? & ? & ?).
      repeat split; try done. rewrite has_sep_app, Hpre. cbn. by apply has_sep_remove_colons.
    + constructor.
Qed.

(** ** A job whose destination is its source *)

(** When the computed destination is the source, the resolver printed
    nothing: it can only print after a failure, and then the destination
    carries a new timestamp. *)
Lemma destFileName_quiet dest sourceFile env s :
  sourceFile = Clean (Join dest (fst (destFileName sourceFile env s))) →
  stdout (snd (destFileName sourceFile env s)) = stdout s.
Proof.
  rewrite destFileName_run. destruct (rename env); [|done].
  pose proof (sys_only_getFileTime sourceFile env s) as Hprog.
  apply prog_fields in Hprog. destruct Hprog as (_ & _ & _ & _ & Hout).
  pose proof (getFileTime_error sourceFile env s) as Herr.
  destruct (getFileTime sourceFile env s) as [[[fTime err] noRename] s1].
  cbn [fst snd] in *. destruct err as [e|]; [|by destruct noRename].
  destruct (Herr fTime e noRename eq_refl) as [_ ->]. cbn [fst snd].
  intros Heq. by apply renamed_is_not_source in Heq.
Qed.

(** C10: when the source path is, as a string, the cleaned destination
    path, the job prints the [Skipped] line, and nothing else. Before that
    line only the resolver ran: no file is changed, none of the system calls
    made can change one (no link, no copy, no removal, also in move mode and
    in a real run), and no counter moves. *)
Theorem job_same_path dest sourceFile env s :
  sourceFile = Clean (Join dest (fst (destFileName sourceFile env s))) →
  let s' := snd (processHashesJob dest sourceFile env s) in
  stdout s' = stdout s ++ [LogSkipped sourceFile sourceFile] ∧
  fs s' = fs s ∧ hashes s' = hashes s ∧
  collisions s' = collisions s ∧ copyErrors s' = copyErrors s ∧
  removeErrors s' = removeErrors s ∧
  ∃ tr, trace s' = trace s ++ tr ∧ Forall (fun o => mutating o = false) tr.
Proof.
  intros Heq. cbn zeta.
  rewrite processHashesJob_run, <- Heq, materialize_skip. cbn [snd].
  pose proof (destFileName_quiet dest sourceFile env s Heq) as Hout.
  destruct (observer_frame (destFileName sourceFile) env s (observer_destFileName _))
    as (Hfs & Hh & Hc & Hce & Hre & Htr).
  cbn [stdout fs hashes collisions copyErrors removeErrors trace add_stdout].
  by rewrite Hout.
Qed.

(** A photo that an earlier run placed, in move mode with renaming. *)
Lemma job_same_path_witness :
  let env := env_of true true false in
  let s' := snd (processHashesJob "/out" "/out/20200102T030405 a.jpg" env (start fs_placed)) in
  stdout s' = [] ++ [LogSkipped "/out/20200102T030405 a.jpg" "/out/20200102T030405 a.jpg"] ∧
  fs s' = fs_placed ∧ hashes s' = ∅ ∧
  collisions s' = 0 ∧ copyErrors s' = 0 ∧ removeErrors s' = 0 ∧
  ∃ tr, trace s' = [] ++ tr ∧ Forall (fun o => mutating o = false) tr.
Proof.
  exact (job_same_path "/out" "/out/20200102T030405 a.jpg" (env_of true true false)
           (start fs_placed) eq_refl).
Defined.

(** ** Names of exactly 15 bytes *)

Lemma isDigit_plain c :
  isDigit c = true → IsPathSeparator c = false ∧ Ascii.eqb c "." = false.
Proof.
  unfold isDigit, IsPathSeparator, Separator. intros H.
  apply andb_true_iff in H as [H1 H2]. apply Nat.leb_le in H1, H2.
  split; apply Ascii.eqb_neq; intros ->; vm_compute in H1, H2; lia.
Qed.

Lemma Ext_plain name :
  Forall (fun c => IsPathSeparator c = false ∧ Ascii.eqb c "." = false)
         (list_ascii_of_string name) →
  Ext name = "".
Proof.
  intros H.
  assert (has_sep name = false ∧ from_last_dot name = None) as [Hsep Hdot].
  { induction name as [|c name IH]; [done|]. cbn in H.
    apply Forall_cons in H as [[Hc Hd] H]. destruct (IH H) as [IH1 IH2].
    split; cbn [has_sep from_last_dot]; [by rewrite Hc, IH1 | by rewrite IH2, Hd]. }
  unfold Ext, last_element. rewrite (split_no_sep _ Hsep). cbn [List.last].
  by rewrite Hdot.
Qed.

(** A name of 15 bytes that parses against [timeFormat] is made of digits
    and a [T]: it has no extension. *)
Lemma stamp_has_no_extension name t :
  len name = 15%nat → Parse timeFormat name = Some t → Ext name = "".
Proof.
  intros Hlen Hparse.
  do 15 (destruct name as [|? name]; [discriminate Hlen|]).
  destruct name; [|discriminate Hlen]. clear Hlen.
  unfold Parse in Hparse. rewrite timeFormat_chunks in Hparse.
  repeat (cbn -[isDigit digit in_range daysIn Ascii.eqb] in Hparse;
          match type of Hparse with
          | context [if ?b then _ else _] => destruct b eqn:?; try discriminate Hparse
          end).
  repeat match goal with
         | H : _ && _ = true |- _ => apply andb_true_iff in H as [? ?]
         | H : Ascii.eqb _ _ = true |- _ => apply Ascii.eqb_eq in H; subst
         end.
  apply Ext_plain. cbn [list_ascii_of_string].
  repeat constructor; first [by apply isDigit_plain | by vm_compute].
Qed.

(** So, for a file that [populateHash] lets through, the test
    [len(fileName) > len(timeFormat)] of [getFileTime] loses nothing: a
    name with an allowed extension whose first 15 bytes parse is longer
    than 15 bytes. *)
Lemma eligible_stamp_is_longer name t :
  has_extension (ToLower (Ext name)) = true →
  (len timeFormat ≤ len name)%nat →
  Parse timeFormat (slice_to (len timeFormat) name) = Some t →
  (len timeFormat < len name)%nat.
Proof.
  intros Hext Hlen Hparse.
  destruct (decide (len name = 15%nat)) as [H15|H15]; [|cbn in *; lia].
  assert (slice_to (len timeFormat) name = name) as Hs.
  { change (len timeFormat) with 15%nat. rewrite <- H15. unfold slice_to, len.
    clear. induction name as [|c name IH]; [done|]. cbn. by rewrite IH. }
  rewrite Hs in Hparse.
  rewrite (stamp_has_no_extension name t H15 Hparse) in Hext. discriminate.
Qed.

(** ** The scenario of the specification, from end to end *)

(** Both phases on [fs_spec], every job in the order of its submission:
    the text file and the sub-folder are not hashed, [b.jpg] is the
    duplicate of [a.jpg], and the destination folder ends with [a.jpg] and
    [c.JPG]. *)
Example specification_scenario :
  let env := env_of false false false in
  let hashed := snd (populateHash id ["/s1"; "/s2"] env (start fs_spec)) in
  let done := snd (processHashesSeq "/out" (survivors hashed) env hashed) in
  fst (enumerate ["/s1"; "/s2"] env (start fs_spec)) =
    [("/s1", "c.JPG"); ("/s1", "a.jpg"); ("/s2", "b.jpg")] ∧
  survivors hashed = ["/s1/a.jpg"; "/s1/c.JPG"] ∧
  collisions done = 1 ∧ copyErrors done = 0 ∧
  map de_name (fst (fst (ioutil_ReadDir "/out" env done))) = ["c.JPG"; "a.jpg"] ∧
  stdout done = [LogDuplicate 1 "/s2/b.jpg" "/s1/a.jpg"; LogTotalImages 2;
                 LogTotalDuplicates 1; LogCopying "/s1/a.jpg" "/out/a.jpg";
                 LogCopying "/s1/c.JPG" "/out/c.JPG"].
Proof. vm_compute. repeat split. Qed.
